(** * RSA_Algorithms_Demo: the key generator and the byte-stream cipher of rsa.c

    A shallow embedding of [src/rsa.c] (the later of the two revisions of the
    file, the one carrying [key_len] and the file cipher) and the theorems
    that settle the claims of the specification against it.

    Conventions.
    - An [mpz_t] value is a [Z].  A GMP call that writes its first argument
      becomes a function returning the written value; the names of the GMP
      entry points are kept.
    - A C [int] used as a truth value is tested with [c_true] / [c_not].
    - [uint64_t] quantities are [Z] (or [N] for the loop counter of the
      primality test) and the conversion to [uint64_t] is written out.
    - The random source lives in [gmp_helper.c], which is not part of the
      sources at hand: it is a parameter (the class [GmpHelper]) of every
      definition that draws from it.
    - What is reached through a pointer (the members of the key structs)
      lives in a store indexed by address.
    - Loops without a bound take a fuel argument: the [while (1)] loops of
      the key generator return [None] when it runs out, the file loops
      ([while (!feof (f))]) report what they have written by then. *)

From Stdlib Require Import ZArith Znumtheory Zpow_facts Lia List Bool Ascii String.
From Stdlib Require Import Zmod.ZmodInv.
Import ListNotations.

#[local] Open Scope Z_scope.

(** ** C scalars *)

Module C.

(** [!v] on an [int]. *)
Definition c_not (v : Z) : bool := v =? 0.

(** [if (v)] on an [int]. *)
Definition c_true (v : Z) : bool := negb (v =? 0).

(** Conversion of an [int] to [uint64_t]: reduction modulo 2^64. *)
Definition to_uint64 (v : Z) : Z := v mod 2 ^ 64.

(** Conversion to [uint8_t]. *)
Definition to_uint8 (v : Z) : Z := v mod 2 ^ 8.

(** <errno.h> *)
Definition EACCES : Z := 13.
Definition EFAULT : Z := 14.
Definition EINVAL : Z := 22.

End C.
Import C.

(** ** The GMP calls the program makes

    GMP is an external library; each call is modelled from its manual entry.
    All of them are total here; where GMP raises a division by zero the
    comment says so, and no theorem below reaches such a call. *)

Module Gmp.

(** [mpz_cmp (a, b)]: sign of [a - b]. *)
Definition mpz_cmp (a b : Z) : Z :=
  match a ?= b with
  | Lt => -1
  | Eq => 0
  | Gt => 1
  end.

Definition mpz_cmp_ui (a : Z) (b : Z) : Z := mpz_cmp a b.
Definition mpz_cmp_si (a : Z) (b : Z) : Z := mpz_cmp a b.

Definition mpz_add_ui (a b : Z) : Z := a + b.
Definition mpz_sub_ui (a b : Z) : Z := a - b.
Definition mpz_mul (a b : Z) : Z := a * b.

(** [mpz_mod_ui] is [mpz_fdiv_r_ui]: the remainder of the floor division,
    never negative for a positive divisor. *)
Definition mpz_mod_ui (a b : Z) : Z := a mod b.

(** [mpz_div_ui] is the old name of [mpz_fdiv_q_ui]: floor division. *)
Definition mpz_div_ui (a b : Z) : Z := a / b.

(** [mpz_mod (r, a, m)]: the sign of [m] is ignored, the result is never
    negative.  (Division by zero in GMP when [m = 0].) *)
Definition mpz_mod (a m : Z) : Z := a mod Z.abs m.

(** [mpz_gcd]: always non-negative, [gcd (a, 0) = |a|]. *)
Definition mpz_gcd (a b : Z) : Z := Z.gcd a b.

(** [mpz_invert (rop, a, m)]: when the inverse exists the return value is
    non-zero and [0 <= rop < |m|]; otherwise the return value is zero and
    [rop] is left undefined by the manual (kept unchanged here).  The pair
    is (return value, rop). *)
Definition mpz_invert (rop a m : Z) : Z * Z :=
  if Z.gcd a m =? 1 then (1, Z.invmod a (Z.abs m)) else (0, rop).

(** [mpz_powm (rop, b, e, m)]: [b^e] modulo [|m|], by square and multiply
    ([Zpow_mod]); a negative exponent goes through the inverse of [b].
    (Division by zero in GMP when [m = 0] or when the inverse needed for a
    negative exponent does not exist.) *)
Definition mpz_powm (b e m : Z) : Z :=
  if 0 <=? e then Zpow_mod b e (Z.abs m)
  else Zpow_mod (Z.invmod b (Z.abs m)) (- e) (Z.abs m).

(** [mpz_get_ui]: the least significant [unsigned long] (64 bits) of the
    absolute value. *)
Definition mpz_get_ui (a : Z) : Z := Z.abs a mod 2 ^ 64.

(** [mpz_sizeinbase (a, 2)]: the number of bits of [|a|], 1 for zero. *)
Definition mpz_sizeinbase2 (a : Z) : Z :=
  if a =? 0 then 1 else Z.log2 (Z.abs a) + 1.

(** The Jacobi symbol by the binary algorithm: [a] is halved while even
    (a sign flip when [n] is 3 or 5 modulo 8), then the two arguments are
    exchanged by quadratic reciprocity.  [n] is odd and positive,
    [0 <= a < n].  Every step lowers the sum of the bit lengths of [a] and
    [n], so the fuel [mpz_jacobi] gives is never used up. *)
Fixpoint jacobi_loop (fuel : nat) (a n r : Z) : Z :=
  match fuel with
  | O => 0
  | S fuel' =>
      if a =? 0 then (if n =? 1 then r else 0)
      else if Z.even a then
        jacobi_loop fuel' (a / 2) n
          (if (n mod 8 =? 3) || (n mod 8 =? 5) then - r else r)
      else
        jacobi_loop fuel' (n mod a) a
          (if (a mod 4 =? 3) && (n mod 4 =? 3) then - r else r)
  end.

(** [mpz_jacobi (a, n)] is defined by the manual for odd [n]; GMP computes
    the Kronecker extension, so a negative [n] contributes the factor
    [(a / -1)], which is -1 exactly when [a] is negative.  For an even [n]
    the program never calls it (the primality test returns before), and 0
    stands for the value. *)
Definition mpz_jacobi (a n : Z) : Z :=
  if Z.even n then 0
  else
    let m := Z.abs n in
    let s := if (n <? 0) && (a <? 0) then -1 else 1 in
    s * jacobi_loop (Z.to_nat (4 * Z.log2 m + 4)) (a mod m) m 1.

End Gmp.
Import Gmp.

(** ** The collaborators that are not in the sources at hand *)

(** The random source of [gmp_helper.c].  [rng] is the state of the generator
    behind it; each draw returns the value written to its first argument and
    the next state. *)
Class GmpHelper := {
  rng : Type;
  (** [__mpz_urandomm (a, t)]: a value below the bound [t]. *)
  __mpz_urandomm : rng -> Z -> Z * rng;
  (** [mpz_rand_bitlen (p, len)]: a value of [len] bits. *)
  mpz_rand_bitlen : rng -> Z -> Z * rng;
}.

(** The two constants of [rsa_digest.h] that the key generator reads. *)
Class RsaDigestH := {
  PRIMALITY_TEST_ACCURACY : N;
  NUM_COMPOSITE : Z;
}.

(** Modelled from the spec: [mpz_check_binlen (n, len)] of [gmp_helper.c] is
    missing; section 4.2 retries "if the product's bit length is not
    bitLength", and the caller continues on a zero return.  So: 0 when [n] has
    exactly [len] bits, non-zero otherwise (the callers only test the value
    against zero, 1 stands for it). *)
Definition mpz_check_binlen (n : Z) (len : Z) : Z :=
  if mpz_sizeinbase2 n =? len then 0 else 1.

(** ** primality_test *)

Section PrimalityTest.

Context {H : GmpHelper}.

(** One turn of the body of [while (k-- > 0)].  [t] is the only local that
    is live from one turn to the next ([a] and [x] are written before they
    are read).  [inl (r, g)] is [return r]; [inr (t', g)] falls through to
    the next turn with the new value of [t]; [g] is the generator state. *)
Definition trial (n : Z) (t : Z) (g : rng) : Z * rng + Z * rng :=
  (* __mpz_urandomm(a, t); mpz_add_ui(a, a, 2); *)
  let (a, g) := __mpz_urandomm g t in
  let a := mpz_add_ui a 2 in
  (* mpz_set_ui(x, (uint64_t)mpz_jacobi(a, n)); *)
  let x := to_uint64 (mpz_jacobi a n) in
  (* if (!mpz_cmp_si(x, -1)) { mpz_set(x, n); mpz_sub_ui(x, x, 1); } *)
  let x := if c_not (mpz_cmp_si x (-1)) then mpz_sub_ui n 1 else x in
  if c_true (mpz_cmp_ui x 0) then
    (* mpz_set(t, n); mpz_sub_ui(t, t, 1); mpz_div_ui(t, t, 2); *)
    let t := mpz_div_ui (mpz_sub_ui n 1) 2 in
    (* mpz_powm(a, a, t, n); *)
    let a := mpz_powm a t n in
    if c_not (mpz_cmp a x) then inl (1, g) else inr (t, g)
  else inr (t, g).

(** [while (k-- > 0) { ... }  return 0;] *)
Fixpoint trials (k : nat) (n : Z) (t : Z) (g : rng) : Z * rng :=
  match k with
  | O => (0, g)
  | S k' =>
      match trial n t g with
      | inl ret => ret
      | inr (t', g') => trials k' n t' g'
      end
  end.

(** [int primality_test(const mpz_t n, uint64_t k)]: the return value and
    the generator state it leaves. *)
Definition primality_test (n : Z) (k : N) (g : rng) : Z * rng :=
  if c_not (mpz_cmp_ui n 1) then (0, g)
  else if c_not (mpz_cmp_ui n 2) then (1, g)
  else if c_not (mpz_cmp_ui (mpz_mod_ui n 2) 0) then (0, g)
  else
    (* mpz_sub_ui(t, n, 2); *)
    trials (N.to_nat k) n (mpz_sub_ui n 2) g.

End PrimalityTest.

(** ** Memory: the mpz_t objects and scalars reached through pointers

    The key functions write through pointers, so the objects they reach live
    in a store indexed by address.  A cell holds the number an [mpz_t] object
    (or a [uint64_t] member) currently has.  [mpz_set] copies the number into
    the destination's own cell: the destination keeps its identity. *)

Module Mem.

Definition addr := Z.
Definition NULL : addr := 0.
Definition store := addr -> Z.

Definition load (m : store) (a : addr) : Z := m a.

Definition write (m : store) (a : addr) (v : Z) : store :=
  fun b => if b =? a then v else m b.

(** [mpz_set (dst, src)] *)
Definition mpz_set (dst src : addr) (m : store) : store :=
  write m dst (load m src).

End Mem.
Import Mem.

(** The structs of [rsa_digest.h], as the functions use them.  A value of
    these records is the struct seen from outside: the address of each
    member.  The [mpz_t] members are arrays embedded in the struct
    ([rsa_key_init] hands them to [mpz_inits] as they are), so [key->n] is
    the address of a member. *)

Module rsa_key.
Record t := mk { n : addr; p : addr; q : addr; e : addr; d : addr; key_len : addr }.

Definition members (k : t) : list addr := [n k; p k; q k; e k; d k; key_len k].
End rsa_key.

Module rsa_public.
Record t := mk { n : addr; d : addr; key_len : addr }.

Definition members (k : t) : list addr := [n k; d k; key_len k].
End rsa_public.

Module rsa_private.
Record t := mk { n : addr; e : addr; key_len : addr }.

Definition members (k : t) : list addr := [n k; e k; key_len k].
End rsa_private.

(** What C guarantees of the members of one struct object: none is at the
    null address and no two share an address. *)
Fixpoint distinct (l : list addr) : bool :=
  match l with
  | [] => true
  | a :: l' => negb (existsb (Z.eqb a) l') && distinct l'
  end.

Definition valid_members (l : list addr) : bool :=
  forallb (fun a => negb (a =? NULL)) l && distinct l.

(** Two objects that do not overlap. *)
Definition disjoint (l1 l2 : list addr) : bool :=
  forallb (fun a => negb (existsb (Z.eqb a) l2)) l1.

(** ** Key generation *)

Section KeyGenerator.

Context {H : GmpHelper} {K : RsaDigestH}.

(** The two inner loops of [generate_n_p_q]:
    [while (1) { mpz_rand_bitlen(p, len_n / 2);
                 if (primality_test(p, ...) == NUM_COMPOSITE) continue;
                 break; }] *)
Fixpoint draw_prime (fuel : nat) (p : addr) (len_n : Z) (m : store) (g : rng)
  : option (store * rng) :=
  match fuel with
  | O => None
  | S fuel' =>
      let (v, g) := mpz_rand_bitlen g (len_n / 2) in
      let m := write m p v in
      let (r, g) := primality_test (load m p) PRIMALITY_TEST_ACCURACY g in
      if r =? NUM_COMPOSITE then draw_prime fuel' p len_n m g
      else Some (m, g)
  end.

(** The outer [while (1)] of [generate_n_p_q]; [Some] is the [break]. *)
Fixpoint generate_loop (fuel : nat) (n p q : addr) (len_n : Z)
  (m : store) (g : rng) : option (store * rng) :=
  match fuel with
  | O => None
  | S fuel' =>
      (* mpz_rand_bitlen(p, len_n / 2); mpz_rand_bitlen(q, len_n / 2); *)
      let (v, g) := mpz_rand_bitlen g (len_n / 2) in
      let m := write m p v in
      let (v, g) := mpz_rand_bitlen g (len_n / 2) in
      let m := write m q v in
      (* mpz_mul(n, p, q); *)
      let m := write m n (mpz_mul (load m p) (load m q)) in
      if c_true (mpz_check_binlen (load m n) len_n) then
        generate_loop fuel' n p q len_n m g
      else
        match draw_prime fuel' p len_n m g with
        | None => None
        | Some (m, g) =>
            match draw_prime fuel' q len_n m g with
            | None => None
            | Some (m, g) =>
                (* mpz_mul(n, p, q); *)
                let m := write m n (mpz_mul (load m p) (load m q)) in
                if c_not (mpz_check_binlen (load m n) len_n) then Some (m, g)
                else generate_loop fuel' n p q len_n m g
            end
        end
  end.

(** [int generate_n_p_q(mpz_t n, mpz_t p, mpz_t q, uint64_t len_n)].
    [fuel] bounds the turns of each of the three loops. *)
Definition generate_n_p_q (fuel : nat) (n p q : addr) (len_n : Z)
  (m : store) (g : rng) : option (Z * store * rng) :=
  if (n =? NULL) || (p =? NULL) || (q =? NULL) || (len_n =? 0) then
    Some (- EINVAL, m, g)
  else if c_true (len_n mod 2) then
    Some (- EINVAL, m, g)
  else
    match generate_loop fuel n p q len_n m g with
    | None => None
    | Some (m, g) => Some (0, m, g)
    end.

(** [int generate_e_d(mpz_t e, mpz_t d, const mpz_t p, const mpz_t q)]:
    the return value, the store and the lines written to [stderr]. *)
Definition generate_e_d (e d p q : addr) (m : store)
  : Z * store * list string :=
  if (e =? NULL) || (d =? NULL) then (- EINVAL, m, [])
  else
    (* phi = (p - 1) * (q - 1) *)
    let p1 := mpz_sub_ui (load m p) 1 in
    let q1 := mpz_sub_ui (load m q) 1 in
    let phi := mpz_mul p1 q1 in
    (* mpz_set_ui(e, 65537); *)
    let m := write m e 65537 in
    (* mpz_gcd(t, e, phi); *)
    let t := mpz_gcd (load m e) phi in
    if c_true (mpz_cmp_ui t 1) then
      (- EFAULT, m, ["gcd() (e, phi) failed!"%string])
    else
      (* mpz_invert(d, e, phi); *)
      let m := write m d (snd (mpz_invert (load m d) (load m e) phi)) in
      (* test (e * d) % phi = 1 *)
      let t := mpz_mul (load m e) (load m d) in
      let t := mpz_mod t phi in
      if c_true (mpz_cmp_ui t 1) then
        (0, m, ["(e * d) % phi = 1 failed!"%string])
      else (0, m, []).

(** [int generate_key(struct rsa_key *key, uint64_t len_key)];
    [None] is the null pointer. *)
Definition generate_key (fuel : nat) (key : option rsa_key.t) (len_key : Z)
  (m : store) (g : rng) : option (Z * store * rng * list string) :=
  match key with
  | None => Some (- EINVAL, m, g, [])
  | Some k =>
      (* key->key_len = len_key; *)
      let m := write m (rsa_key.key_len k) len_key in
      match generate_n_p_q fuel (rsa_key.n k) (rsa_key.p k) (rsa_key.q k)
              len_key m g with
      | None => None
      | Some (r, m, g) =>
          if c_true r then
            Some (- EFAULT, m, g, ["failed to generate N, P, Q factors"%string])
          else
            let '(r, m, err) :=
              generate_e_d (rsa_key.e k) (rsa_key.d k)
                           (rsa_key.p k) (rsa_key.q k) m in
            if c_true r then
              Some (- EFAULT, m, g,
                    err ++ ["failed to generate E, Q factors"%string])
            else Some (0, m, g, err)
      end
  end.

End KeyGenerator.

(** [int generate_public_key(struct rsa_key *key, struct rsa_public *pkey)].
    [!key->n] and [!key->d] test the addresses of the members. *)
Definition generate_public_key (key : option rsa_key.t) (pkey : rsa_public.t)
  (m : store) : Z * store :=
  match key with
  | None => (- EINVAL, m)
  | Some k =>
      if (rsa_key.n k =? NULL) || (rsa_key.d k =? NULL) then (- EINVAL, m)
      else
        let m := mpz_set (rsa_public.n pkey) (rsa_key.n k) m in
        let m := mpz_set (rsa_public.d pkey) (rsa_key.d k) m in
        (* pkey->key_len = key->key_len; *)
        let m := write m (rsa_public.key_len pkey)
                         (load m (rsa_key.key_len k)) in
        (0, m)
  end.

(** [int generate_private_key(struct rsa_key *key, struct rsa_private *pkey)] *)
Definition generate_private_key (key : option rsa_key.t) (pkey : rsa_private.t)
  (m : store) : Z * store :=
  match key with
  | None => (- EINVAL, m)
  | Some k =>
      if (rsa_key.n k =? NULL) || (rsa_key.e k =? NULL) then (- EINVAL, m)
      else
        let m := mpz_set (rsa_private.n pkey) (rsa_key.n k) m in
        let m := mpz_set (rsa_private.e pkey) (rsa_key.e k) m in
        (* pkey->key_len = key->key_len; *)
        let m := write m (rsa_private.key_len pkey)
                         (load m (rsa_key.key_len k)) in
        (0, m)
  end.

(** ** The cipher *)

(** [void rsa_docrypt(mpz_t out, const mpz_t in, const mpz_t e, const mpz_t n)]:
    the value written to [out]. *)
Definition rsa_docrypt (input e n : Z) : Z := mpz_powm input e n.

(** *** stdio and the formatted input and output of GMP

    A stream open for reading is the text still to be read and its
    end-of-file indicator, which a read sets when it runs into the end.  A
    stream open for writing is the text written so far. *)

Module Stdio.

Record FILE := mkFILE { buf : list ascii; eof : bool }.

Definition fopen_r (content : list ascii) : FILE :=
  {| buf := content; eof := false |}.

Definition EOF : Z := -1.

Definition feof (f : FILE) : bool := eof f.

Definition code (c : ascii) : Z := Z.of_N (N_of_ascii c).
Definition char (v : Z) : ascii := ascii_of_N (Z.to_N v).

(** [fgetc]: the next character as an [unsigned char] converted to [int],
    or [EOF] with the indicator set. *)
Definition fgetc (f : FILE) : Z * FILE :=
  match buf f with
  | [] => (EOF, {| buf := []; eof := true |})
  | c :: rest => (code c, {| buf := rest; eof := eof f |})
  end.

(** [fputc (ch, f)] *)
Definition fputc (ch : Z) (f : list ascii) : list ascii := f ++ [char ch].

Definition newline : ascii := char 10.
Definition minus : ascii := char 45.
Definition plus : ascii := char 43.

(** [isspace] in the C locale: space and the controls 9 to 13. *)
Definition isspace (c : ascii) : bool :=
  (code c =? 32) || ((9 <=? code c) && (code c <=? 13)).

(** The digit for a value below 16, in lower case as [%Zx] prints it. *)
Definition hex_digit (v : Z) : ascii :=
  if v <? 10 then char (48 + v) else char (87 + v).

(** The value of a hexadecimal digit of either case. *)
Definition hex_value (c : ascii) : option Z :=
  let v := code c in
  if (48 <=? v) && (v <=? 57) then Some (v - 48)
  else if (97 <=? v) && (v <=? 102) then Some (v - 87)
  else if (65 <=? v) && (v <=? 70) then Some (v - 55)
  else None.

(** The digits of a non-negative number, most significant first. *)
Fixpoint hex_digits (fuel : nat) (v : Z) (acc : list ascii) : list ascii :=
  match fuel with
  | O => acc
  | S fuel' =>
      let acc := hex_digit (v mod 16) :: acc in
      if v / 16 =? 0 then acc else hex_digits fuel' (v / 16) acc
  end.

(** The text [%Zx] produces: a minus sign for a negative number, then the
    digits of the absolute value without prefix or padding. *)
Definition format_Zx (v : Z) : list ascii :=
  (if v <? 0 then [minus] else [])
    ++ hex_digits (S (Z.to_nat (Z.log2 (Z.abs v)))) (Z.abs v) [].

(** [gmp_fprintf (f, "%Zx\n", v)] *)
Definition gmp_fprintf_Zx_nl (f : list ascii) (v : Z) : list ascii :=
  f ++ format_Zx v ++ [newline].

Fixpoint skip_space (s : list ascii) : list ascii :=
  match s with
  | c :: rest => if isspace c then skip_space rest else s
  | [] => []
  end.

(** The longest run of hexadecimal digits at the head of [s], accumulated
    in base 16, and what follows it. *)
Fixpoint scan_hex (acc : Z) (s : list ascii) : Z * list ascii :=
  match s with
  | c :: rest =>
      match hex_value c with
      | Some v => scan_hex (16 * acc + v) rest
      | None => (acc, s)
      end
  | [] => (acc, [])
  end.

(** [gmp_fscanf (f, "%Zx", dst)]: the return value, the value of [dst]
    afterwards and the stream.  White space is skipped; then an optional
    sign, minus or plus, and the longest run of hexadecimal digits are read
    (a plus sign is read and dropped).
    - End of input before any digit: input failure, [EOF] is returned and
      the indicator is set.
    - A character that cannot start the number: matching failure, 0 is
      returned, [dst] is not assigned and the character stays unread.
    - Otherwise 1 is returned; the character that ended the run stays
      unread, and the indicator is set when the run ended at the end of
      the input. *)
Definition gmp_fscanf_Zx (f : FILE) (dst : Z) : Z * Z * FILE :=
  match skip_space (buf f) with
  | [] => (EOF, dst, {| buf := []; eof := true |})
  | c :: rest =>
      let neg := Ascii.eqb c minus in
      let s := if neg || Ascii.eqb c plus then rest else c :: rest in
      match s with
      | [] => (EOF, dst, {| buf := []; eof := true |})
      | c1 :: _ =>
          match hex_value c1 with
          | None => (0, dst, {| buf := s; eof := eof f |})
          | Some _ =>
              let (v, s') := scan_hex 0 s in
              (1, if neg then - v else v,
               {| buf := s';
                  eof := match s' with [] => true | _ => eof f end |})
          end
      end
  end.

(** A text that starts with a digit of [%Zx]. *)
Definition digit_head (s : list ascii) : Prop :=
  exists v tl, 0 <= v < 16 /\ s = hex_digit v :: tl.

End Stdio.
Import Stdio.

(** How a function whose loop may not end comes back: with its return value
    and the file it wrote, or still turning when the fuel is spent, with what
    it has written by then. *)
Inductive outcome :=
| Returned (ret : Z) (written : list ascii)
| Spinning (written : list ascii).

(** The loop of [rsa_encrypt_file]:
    [while (!feof(fplain)) { res = fgetc(fplain); if (res == EOF) break; ... }] *)
Fixpoint encrypt_loop (fuel : nat) (fplain : FILE) (fcrypt : list ascii)
  (e n : Z) : outcome :=
  match fuel with
  | O => Spinning fcrypt
  | S fuel' =>
      if feof fplain then Returned 0 fcrypt
      else
        let (res, fplain) := fgetc fplain in
        if res =? EOF then Returned 0 fcrypt
        else
          let ch := to_uint8 res in
          (* mpz_set_ui(dplain, ch); rsa_docrypt(dcrypt, dplain, e, n); *)
          let dcrypt := rsa_docrypt ch e n in
          encrypt_loop fuel' fplain (gmp_fprintf_Zx_nl fcrypt dcrypt) e n
  end.

(** [rsa_encrypt_file], from the point where both files are open: [plain] is
    the content of the file read, the result carries the file written.  (The
    null and [fopen] checks before that point return [-EINVAL] and [-EACCES]
    without touching either file.) *)
Definition rsa_encrypt_file (fuel : nat) (plain : list ascii) (e n : Z)
  : outcome :=
  encrypt_loop fuel (fopen_r plain) [] e n.

(** The loop of [rsa_decrypt_file]:
    [while (!feof(fencry)) { gmp_fscanf(fencry, "%Zx", dencry);
                             if (feof(fencry)) break; ... }]
    The return value of [gmp_fscanf] is not looked at. *)
Fixpoint decrypt_loop (fuel : nat) (fencry : FILE) (dencry : Z)
  (fdecry : list ascii) (e n : Z) : outcome :=
  match fuel with
  | O => Spinning fdecry
  | S fuel' =>
      if feof fencry then Returned 0 fdecry
      else
        let '(_, dencry, fencry) := gmp_fscanf_Zx fencry dencry in
        if feof fencry then Returned 0 fdecry
        else
          let ddecry := rsa_docrypt dencry e n in
          let ch := to_uint8 (mpz_get_ui ddecry) in
          decrypt_loop fuel' fencry dencry (fputc ch fdecry) e n
  end.

(** [rsa_decrypt_file], from the point where both files are open and
    [mpz_inits] has set [dencry] to 0. *)
Definition rsa_decrypt_file (fuel : nat) (encrypted : list ascii) (e n : Z)
  : outcome :=
  decrypt_loop fuel (fopen_r encrypted) 0 [] e n.

(** ** The text of an encrypted file *)

(** One line per number, as [gmp_fprintf (f, "%Zx\n", v)] writes it. *)
Definition token_lines (vs : list Z) : list ascii :=
  flat_map (fun v => format_Zx v ++ [newline]) vs.

(** The file [rsa_encrypt_file] is to write: one line per byte of the plain
    file, holding the number [rsa_docrypt] gives for the byte. *)
Definition cipher_text (plain : list ascii) (e n : Z) : list ascii :=
  token_lines (map (fun c => rsa_docrypt (code c) e n) plain).

(** The byte [rsa_decrypt_file] writes for the number [v]. *)
Definition decrypted_byte (e n : Z) (v : Z) : ascii :=
  char (to_uint8 (mpz_get_ui (rsa_docrypt v e n))).

(** A character that is neither white space nor the start of a number:
    no sign and no hexadecimal digit. *)
Definition malformed (c : ascii) : bool :=
  negb (isspace c) && negb (Ascii.eqb c minus) && negb (Ascii.eqb c plus)
  && match hex_value c with Some _ => false | None => true end.

(** ** What a projection of the key has to achieve

    [copied m m' src dst]: in [m'] the cells [dst] hold what the cells [src]
    held in [m], and every other cell is as it was in [m]. *)
Definition copied (m m' : store) (src dst : list addr) : Prop :=
  map (load m') dst = map (load m) src
  /\ forall a, ~ In a dst -> load m' a = load m a.

(** ** A primality checker for the examples: trial division *)

Definition prime_check (p : Z) : bool :=
  (1 <? p)
  && forallb (fun d => negb (p mod Z.of_nat d =? 0)) (seq 2 (Z.to_nat p - 2)).

(** ** Scripted random sources

    Closed examples replay a fixed list of raw draws (0 once the list is
    used up).  [urandomm] follows [mpz_urandomm], whose result lies in
    [0, |bound|); [rand_bitlen] sets the top bit of a [len]-bit value and
    draws the rest. *)

Module Script.

Definition next (g : list Z) : Z * list Z :=
  match g with
  | [] => (0, [])
  | r :: g' => (r, g')
  end.

Definition urandomm (g : list Z) (bound : Z) : Z * list Z :=
  let (r, g') := next g in (r mod Z.abs bound, g').

Definition rand_bitlen (g : list Z) (len : Z) : Z * list Z :=
  let (r, g') := next g in (2 ^ (len - 1) + r mod 2 ^ (len - 1), g').

#[export] Instance helper : GmpHelper := {|
  rng := list Z;
  __mpz_urandomm := urandomm;
  mpz_rand_bitlen := rand_bitlen;
|}.

(** The same source, keeping the list of the bounds [urandomm] was asked
    for. *)
Definition logged_urandomm (g : list Z * list Z) (bound : Z)
  : Z * (list Z * list Z) :=
  let (r, g') := urandomm (fst g) bound in (r, (g', snd g ++ [bound])).

Definition logged_rand_bitlen (g : list Z * list Z) (len : Z)
  : Z * (list Z * list Z) :=
  let (r, g') := rand_bitlen (fst g) len in (r, (g', snd g)).

Definition logging : GmpHelper := {|
  rng := list Z * list Z;
  __mpz_urandomm := logged_urandomm;
  mpz_rand_bitlen := logged_rand_bitlen;
|}.

#[export] Instance header : RsaDigestH := {|
  PRIMALITY_TEST_ACCURACY := 5;
  NUM_COMPOSITE := 0;
|}.

Definition text (s : string) : list ascii := list_ascii_of_string s.

(** A store with every cell at 0, as after [mpz_inits]. *)
Definition zeroed : store := fun _ => 0.

Definition key : rsa_key.t := rsa_key.mk 101 102 103 104 105 106.
Definition pub : rsa_public.t := rsa_public.mk 201 202 203.
Definition priv : rsa_private.t := rsa_private.mk 301 302 303.

(** The return value and the store of a run of [generate_key]. *)
Definition ret_of (o : option (Z * store * list Z * list string)) : option Z :=
  option_map (fun x => fst (fst (fst x))) o.

Definition store_of (o : option (Z * store * list Z * list string)) : store :=
  match o with
  | Some (_, m, _, _) => m
  | None => zeroed
  end.

End Script.

(** ** A random source that records what it is asked

    [logged H] behaves as [H] and keeps, next to the generator state, the list
    of the bounds handed to [__mpz_urandomm], in the order of the calls. *)
Definition logged (H : GmpHelper) : GmpHelper := {|
  rng := (@rng H * list Z)%type;
  __mpz_urandomm := fun g bound =>
    let (r, g') := @__mpz_urandomm H (fst g) bound in
    (r, (g', snd g ++ [bound]));
  mpz_rand_bitlen := fun g len =>
    let (r, g') := @mpz_rand_bitlen H (fst g) len in
    (r, (g', snd g));
|}.

(** ** Initialisation of the key structs

    [mpz_inits] gives every number it is handed the value 0.  (The memory GMP
    allocates for the numbers, and with it [rsa_key_clean] and its two
    siblings, which give it back, is outside the store.) *)

(** [int rsa_key_init(struct rsa_key *key)]; [key_len] is not written. *)
Definition rsa_key_init (key : option rsa_key.t) (m : store) : Z * store :=
  match key with
  | None => (- EINVAL, m)
  | Some k =>
      (* mpz_inits(key->n, key->p, key->q, key->e, key->d, NULL); *)
      let m := write m (rsa_key.n k) 0 in
      let m := write m (rsa_key.p k) 0 in
      let m := write m (rsa_key.q k) 0 in
      let m := write m (rsa_key.e k) 0 in
      let m := write m (rsa_key.d k) 0 in
      (0, m)
  end.

(** [int rsa_public_key_init(struct rsa_public *key)] *)
Definition rsa_public_key_init (key : option rsa_public.t) (m : store)
  : Z * store :=
  match key with
  | None => (- EINVAL, m)
  | Some k =>
      (* mpz_inits(key->n, key->d, NULL); *)
      let m := write m (rsa_public.n k) 0 in
      let m := write m (rsa_public.d k) 0 in
      (0, m)
  end.

(** [int rsa_private_key_init(struct rsa_private *key)] *)
Definition rsa_private_key_init (key : option rsa_private.t) (m : store)
  : Z * store :=
  match key with
  | None => (- EINVAL, m)
  | Some k =>
      (* mpz_inits(key->n, key->e, NULL); *)
      let m := write m (rsa_private.n k) 0 in
      let m := write m (rsa_private.e k) 0 in
      (0, m)
  end.

(** The store a run left behind, for the examples ([dflt] when the fuel ran
    out). *)
Definition store_after {A : Type} (o : option (Z * store * A)) (dflt : store)
  : store :=
  match o with
  | Some (_, m, _) => m
  | None => dflt
  end.

(** Trial division by the numbers from 2 to the square root, for the
    primality of 65537. *)
Definition prime_check_sqrt (p : Z) : bool :=
  (1 <? p)
  && forallb (fun d => negb (p mod Z.of_nat d =? 0))
       (seq 2 (Z.to_nat (Z.sqrt p) - 1)).

(** The characters an encrypted file is made of: the digits [%Zx] prints and
    the line terminator. *)
Definition cipher_char (c : ascii) : bool :=
  Ascii.eqb c newline
  || ((48 <=? code c) && (code c <=? 57))
  || ((97 <=? code c) && (code c <=? 102)).

(** * Theorems *)

#[local] Existing Instances Script.helper Script.header.

(** ** Comparisons and conversions *)

Lemma c_true_not (v : Z) : c_true v = negb (c_not v).
Proof. reflexivity. Qed.

Lemma c_not_mpz_cmp (a b : Z) : c_not (mpz_cmp a b) = (a =? b).
Proof.
  unfold c_not, mpz_cmp.
  destruct (Z.compare_spec a b) as [Heq | Hlt | Hgt];
    destruct (Z.eqb_spec a b); try reflexivity; lia.
Qed.

Lemma c_true_mpz_cmp (a b : Z) : c_true (mpz_cmp a b) = negb (a =? b).
Proof. rewrite c_true_not, c_not_mpz_cmp. reflexivity. Qed.

Lemma mod_2_even (n : Z) : (n mod 2 =? 0) = Z.even n.
Proof. rewrite Zmod_even. destruct (Z.even n); reflexivity. Qed.

Lemma odd_not_even (n : Z) : Z.odd n = true -> Z.even n = false.
Proof. rewrite <- Z.negb_even. destruct (Z.even n); simpl; congruence. Qed.

Lemma mpz_powm_range (b e m : Z) : 0 <= e -> m <> 0 -> 0 <= mpz_powm b e m < Z.abs m.
Proof.
  intros He Hm. unfold mpz_powm.
  destruct (Z.leb_spec 0 e); [| lia].
  rewrite Zpow_mod_correct by lia.
  apply Z.mod_pos_bound. lia.
Qed.

Lemma mpz_powm_spec (b e m : Z) : 0 <= e -> 0 < m -> mpz_powm b e m = b ^ e mod m.
Proof.
  intros He Hm. unfold mpz_powm.
  destruct (Z.leb_spec 0 e); [| lia].
  rewrite Z.abs_eq by lia. apply Zpow_mod_correct. lia.
Qed.

(** The Jacobi symbol takes its values in -1, 0 and 1. *)
Lemma jacobi_loop_values (fuel : nat) : forall a n r,
  r = 1 \/ r = -1 ->
  jacobi_loop fuel a n r = -1 \/ jacobi_loop fuel a n r = 0
  \/ jacobi_loop fuel a n r = 1.
Proof.
  induction fuel as [| fuel IH]; intros a n r Hr; simpl.
  - auto.
  - destruct (a =? 0).
    + destruct (n =? 1); lia.
    + destruct (Z.even a); apply IH;
        match goal with |- context [if ?c then _ else _] => destruct c end; lia.
Qed.

Lemma mpz_jacobi_values (a n : Z) :
  mpz_jacobi a n = -1 \/ mpz_jacobi a n = 0 \/ mpz_jacobi a n = 1.
Proof.
  unfold mpz_jacobi. destruct (Z.even n); [auto |].
  pose proof (jacobi_loop_values (Z.to_nat (4 * Z.log2 (Z.abs n) + 4))
                (a mod Z.abs n) (Z.abs n) 1 (or_introl eq_refl)) as Hj.
  destruct ((n <? 0) && (a <? 0)); lia.
Qed.

(** ** The primality test *)

Section PrimalityFacts.

Context {H : GmpHelper}.

(** What the cast to [uint64_t] does to the three values of the symbol:
    -1 becomes 2^64 - 1, which [mpz_cmp_si (x, -1)] does not recognise. *)
Lemma trial_unfold (n t : Z) (g : rng) :
  trial n t g =
    let (a0, g1) := __mpz_urandomm g t in
    let j := mpz_jacobi (a0 + 2) n in
    if j =? 0 then inr (t, g1)
    else if mpz_powm (a0 + 2) ((n - 1) / 2) n =? (if j =? 1 then 1 else 2 ^ 64 - 1)
         then inl (1, g1)
         else inr ((n - 1) / 2, g1).
Proof.
  unfold trial. destruct (__mpz_urandomm g t) as [a0 g1].
  unfold mpz_add_ui, mpz_sub_ui, mpz_div_ui, mpz_cmp_si, mpz_cmp_ui, to_uint64.
  cbv zeta.
  rewrite !c_not_mpz_cmp.
  rewrite c_true_mpz_cmp.
  generalize (mpz_powm (a0 + 2) ((n - 1) / 2) n); intro v.
  destruct (mpz_jacobi_values (a0 + 2) n) as [Hj | [Hj | Hj]]; rewrite Hj;
    reflexivity.
Qed.

(** A turn whose symbol is -1 never returns, whatever the residue, as long
    as the candidate fits in 64 bits. *)
Lemma trial_minus_one_falls_through (n t : Z) (g : rng) :
  0 < n < 2 ^ 64 ->
  mpz_jacobi (fst (__mpz_urandomm g t) + 2) n = -1 ->
  trial n t g = inr ((n - 1) / 2, snd (__mpz_urandomm g t)).
Proof.
  intros Hn Hj. rewrite trial_unfold.
  destruct (__mpz_urandomm g t) as [a0 g1]. cbn [fst snd] in *.
  rewrite Hj. change (-1 =? 0) with false. change (-1 =? 1) with false.
  cbv iota.
  assert (0 <= (n - 1) / 2) by (apply Z.div_pos; lia).
  pose proof (mpz_powm_range (a0 + 2) ((n - 1) / 2) n) as Hr.
  destruct (Z.eqb_spec (mpz_powm (a0 + 2) ((n - 1) / 2) n) (2 ^ 64 - 1));
    [lia | reflexivity].
Qed.

Lemma primality_test_odd (n : Z) (k : N) (g : rng) :
  Z.odd n = true -> n <> 1 ->
  primality_test n k g = trials (N.to_nat k) n (n - 2) g.
Proof.
  intros Hodd Hn1. unfold primality_test, mpz_cmp_ui, mpz_mod_ui, mpz_sub_ui.
  rewrite !c_not_mpz_cmp, mod_2_even, (odd_not_even n Hodd).
  destruct (Z.eqb_spec n 1); [lia |].
  destruct (Z.eqb_spec n 2); [subst; discriminate | reflexivity].
Qed.

End PrimalityFacts.

Lemma script_urandomm_range (g : list Z) (b : Z) :
  0 < b -> 0 <= fst (Script.urandomm g b) < b.
Proof.
  intros Hb. unfold Script.urandomm.
  destruct (Script.next g) as [r g']. cbn [fst].
  rewrite Z.abs_eq by lia. apply Z.mod_pos_bound. lia.
Qed.

(** C7, as amended.  The three guards at the head of [primality_test] settle
    these candidates without entering the loop, whatever the number of rounds
    and leaving the random source untouched: every candidate below 2 that is
    not negative or that is even is reported composite, 2 is reported prime,
    and every even candidate above 2 is reported composite.  (A negative odd
    candidate passes the three guards.) *)
Theorem primality_test_guards `{H : GmpHelper} (n : Z) (k : N) (g : rng) :
  (n < 2 -> 0 <= n \/ Z.even n = true -> primality_test n k g = (0, g)) /\
  (n = 2 -> primality_test n k g = (1, g)) /\
  (2 < n -> Z.even n = true -> primality_test n k g = (0, g)).
Proof.
  unfold primality_test, mpz_cmp_ui, mpz_mod_ui.
  rewrite !c_not_mpz_cmp, mod_2_even.
  split; [| split].
  - intros Hlt Hcase.
    destruct (Z.eqb_spec n 1); [reflexivity |].
    destruct (Z.eqb_spec n 2); [lia |].
    destruct Hcase as [Hnn | Heven].
    + assert (n = 0) by lia. subst n. reflexivity.
    + rewrite Heven. reflexivity.
  - intros ->. reflexivity.
  - intros Hgt Heven.
    destruct (Z.eqb_spec n 1); [lia |].
    destruct (Z.eqb_spec n 2); [lia |].
    rewrite Heven. reflexivity.
Qed.

Lemma primality_test_guards_witness :
  primality_test 1 5 [4; 4] = (0, [4; 4]) /\
  primality_test 0 5 [4; 4] = (0, [4; 4]) /\
  primality_test (-6) 5 [4; 4] = (0, [4; 4]) /\
  primality_test 2 5 [4; 4] = (1, [4; 4]) /\
  primality_test 100 5 [4; 4] = (0, [4; 4]).
Proof.
  split; [| split; [| split; [| split]]].
  - apply (proj1 (primality_test_guards (H := Script.helper) 1 5 [4; 4])); [lia | left; lia].
  - apply (proj1 (primality_test_guards (H := Script.helper) 0 5 [4; 4])); [lia | left; lia].
  - apply (proj1 (primality_test_guards (H := Script.helper) (-6) 5 [4; 4])); [lia | right; reflexivity].
  - apply (proj1 (proj2 (primality_test_guards (H := Script.helper) 2 5 [4; 4]))). reflexivity.
  - apply (proj2 (proj2 (primality_test_guards (H := Script.helper) 100 5 [4; 4]))); [lia | reflexivity].
Defined.

(** C7 as stated fails on a negative odd candidate: -3 is below 2, passes the
    guards ([-3 != 1], [-3 != 2], [-3 mod 2 = 1]) and is accepted by the first
    turn when the draw is 2: a = 4, the symbol (4 / -3) is 1 and
    4^((-3 - 1) / 2) mod 3 = 1. *)
Lemma primality_test_negative_odd_accepted :
  -3 < 2 /\ primality_test (-3) 1 [2] = (1, []).
Proof. split; [lia | vm_compute; reflexivity]. Qed.

(** C10.  With no rounds the test reports every odd candidate above 2 as
    composite, primes included: the only [return 1] past the guards is inside
    the loop. *)
Theorem primality_test_zero_rounds `{H : GmpHelper} (n : Z) (g : rng) :
  Z.odd n = true -> 2 < n -> primality_test n 0 g = (0, g).
Proof.
  intros Hodd Hn. rewrite primality_test_odd by (trivial; lia). reflexivity.
Qed.

Lemma primality_test_zero_rounds_witness :
  primality_test 7919 0 [3; 1; 4] = (0, [3; 1; 4]).
Proof.
  apply (primality_test_zero_rounds (H := Script.helper) 7919 [3; 1; 4]); [reflexivity | lia].
Defined.

(** C8, the code at the failing input.  The candidate 3 is reported composite
    for every number of rounds and every random source that respects its
    bound: the only witness is a = 2, its symbol is -1 and its residue
    2^1 mod 3 = 2 is candidate - 1, the residue expected for -1; but
    [(uint64_t)mpz_jacobi (a, n)] has turned -1 into 2^64 - 1, the test
    [!mpz_cmp_si (x, -1)] fails and the residue is compared with 2^64 - 1. *)
Theorem primality_test_3_composite `{H : GmpHelper} (k : N) (g : rng) :
  (forall g b, 0 < b -> 0 <= fst (__mpz_urandomm g b) < b) ->
  fst (primality_test 3 k g) = 0.
Proof.
  intros Hrange.
  rewrite primality_test_odd by (trivial; lia).
  change (3 - 2) with 1.
  generalize (N.to_nat k) as r. intros r. revert g.
  induction r as [| r IH]; intros g; [reflexivity |].
  cbn [trials].
  assert (Ha : fst (__mpz_urandomm g 1) = 0) by (specialize (Hrange g 1); lia).
  rewrite trial_minus_one_falls_through.
  - change ((3 - 1) / 2) with 1. apply IH.
  - split; [lia | reflexivity].
  - rewrite Ha. reflexivity.
Qed.

Lemma primality_test_3_composite_witness :
  fst (primality_test 3 5 [10; 11; 12; 13; 14]) = 0.
Proof.
  apply (primality_test_3_composite (H := Script.helper) 5 [10; 11; 12; 13; 14]).
  exact script_urandomm_range.
Defined.

(** C6, what the code does.  For an odd candidate above 3, a first turn that
    does not return and whose symbol is not 0 leaves (candidate - 1) / 2 in
    [t], which is smaller than candidate - 2; the second turn draws below that
    value, so its witness is at most (candidate - 1) / 2 + 1.  [t] is both the
    sampling bound and the scratch variable for the exponent. *)
Theorem trial_overwrites_sampling_bound `{H : GmpHelper} (n : Z) (g : rng)
  (t1 : Z) (g1 : rng) :
  Z.odd n = true -> 3 < n ->
  mpz_jacobi (fst (__mpz_urandomm g (n - 2)) + 2) n <> 0 ->
  trial n (n - 2) g = inr (t1, g1) ->
  t1 = (n - 1) / 2 /\ t1 < n - 2 /\
  primality_test n 2 g =
    match trial n ((n - 1) / 2) g1 with
    | inl ret => ret
    | inr (_, g2) => (0, g2)
    end.
Proof.
  intros Hodd Hn Hj Htrial.
  assert (Ht1 : t1 = (n - 1) / 2).
  { rewrite trial_unfold in Htrial.
    destruct (__mpz_urandomm g (n - 2)) as [a0 g'] eqn:Hdraw. cbn [fst] in Hj.
    cbv zeta in Htrial.
    destruct (Z.eqb_spec (mpz_jacobi (a0 + 2) n) 0); [contradiction |].
    destruct (_ =? _) in Htrial; congruence. }
  split; [exact Ht1 |]. split.
  - subst t1. apply Z.div_lt_upper_bound; lia.
  - rewrite primality_test_odd by (trivial; lia).
    change (N.to_nat 2) with 2%nat. cbn [trials].
    rewrite Htrial, Ht1.
    destruct (trial n ((n - 1) / 2) g1) as [ret | [t2 g2]]; reflexivity.
Qed.

Lemma trial_overwrites_sampling_bound_witness :
  3 = (7 - 1) / 2 /\ 3 < 7 - 2 /\
  primality_test 7 2 [1; 1] =
    match trial 7 ((7 - 1) / 2) [1] with
    | inl ret => ret
    | inr (_, g2) => (0, g2)
    end.
Proof.
  apply (trial_overwrites_sampling_bound (H := Script.helper) 7 [1; 1] 3 [1]);
    [reflexivity | lia | vm_compute; discriminate | vm_compute; reflexivity].
Defined.

(** C6 at the failing input: candidate 7, two rounds, both raw draws 1.  The
    bounds handed to [__mpz_urandomm] are 5 = candidate - 2, then 3. *)
Example primality_test_7_bounds :
  @primality_test Script.logging 7 2 ([1; 1], []) = (0, ([], [5; 3])).
Proof. vm_compute. reflexivity. Qed.

Example jacobi_mod_7 :
  map (fun a => mpz_jacobi a 7) [0; 1; 2; 3; 4; 5; 6] = [0; 1; 1; -1; 1; -1; -1].
Proof. reflexivity. Qed.

(** On a prime modulus the symbol agrees with Euler's criterion. *)
Example jacobi_euler_criterion :
  forallb
    (fun p =>
       forallb
         (fun a => mpz_jacobi (Z.of_nat a) p mod p
                   =? mpz_powm (Z.of_nat a) ((p - 1) / 2) p)
         (seq 0 (Z.to_nat p)))
    [3; 5; 7; 11; 13; 17; 19; 23; 29; 31; 37; 41; 43; 47; 97; 191; 193]
  = true.
Proof. vm_compute. reflexivity. Qed.

(** On a product of two primes it is the product of the two symbols. *)
Example jacobi_multiplicative :
  forallb
    (fun a => mpz_jacobi (Z.of_nat a) (7 * 11)
              =? mpz_jacobi (Z.of_nat a) 7 * mpz_jacobi (Z.of_nat a) 11)
    (seq 0 77)
  = true.
Proof. vm_compute. reflexivity. Qed.

Example jacobi_mod_15 :
  map (fun a => mpz_jacobi a 15) [1; 2; 3; 4; 7; 8; 11; 13; 14]
  = [1; 1; 0; 1; -1; 1; -1; -1; -1].
Proof. reflexivity. Qed.

(** ** Stores and struct members *)

Lemma load_write_same (m : store) (a : addr) (v : Z) : load (write m a v) a = v.
Proof. unfold load, write. rewrite Z.eqb_refl. reflexivity. Qed.

Lemma load_write_other (m : store) (a b : addr) (v : Z) :
  b <> a -> load (write m a v) b = load m b.
Proof.
  intros Hne. unfold load, write.
  destruct (Z.eqb_spec b a); [contradiction | reflexivity].
Qed.

Create Rewrite HintDb store.
#[local] Hint Rewrite load_write_same : store.
#[local] Hint Rewrite load_write_other using (solve [auto]) : store.

(** Turns a boolean fact about addresses into the inequalities it stands
    for. *)
Ltac addr_facts Hv :=
  cbv [valid_members disjoint distinct forallb existsb NULL
       rsa_key.members rsa_public.members rsa_private.members
       rsa_key.n rsa_key.p rsa_key.q rsa_key.e rsa_key.d rsa_key.key_len
       rsa_public.n rsa_public.d rsa_public.key_len
       rsa_private.n rsa_private.e rsa_private.key_len] in Hv;
  rewrite ?andb_true_iff, ?negb_true_iff, ?orb_false_iff, ?Z.eqb_neq in Hv;
  repeat match type of Hv with
         | _ /\ _ => let Hl := fresh "Ha" in destruct Hv as [Hl Hv]
         end;
  repeat match goal with
         | Hc : _ /\ _ |- _ => destruct Hc
         end.

(** ** The checker of the examples is sound *)

Lemma prime_check_sound (p : Z) : prime_check p = true -> Z.prime p.
Proof.
  unfold prime_check. rewrite andb_true_iff, forallb_forall.
  intros [Hp Hall]. apply Z.ltb_lt in Hp.
  split; [exact Hp |].
  intros d Hd Hdiv.
  specialize (Hall (Z.to_nat d)).
  rewrite Z2Nat.id, negb_true_iff, Z.eqb_neq in Hall by lia.
  apply Hall.
  - apply in_seq. lia.
  - apply Z.mod_divide; [lia | exact Hdiv].
Qed.

(** ** The key generator *)

Lemma mpz_check_binlen_zero (v len : Z) :
  mpz_check_binlen v len = 0 <-> mpz_sizeinbase2 v = len.
Proof.
  unfold mpz_check_binlen.
  destruct (Z.eqb_spec (mpz_sizeinbase2 v) len); split; intros; congruence.
Qed.

Section KeyGeneratorFacts.

Context {H : GmpHelper} {K : RsaDigestH}.

(** The prime loops write their own cell only. *)
Lemma draw_prime_frame (fuel : nat) : forall p len m g m' g' a,
  draw_prime fuel p len m g = Some (m', g') -> a <> p -> load m' a = load m a.
Proof.
  induction fuel as [| fuel IH]; intros p len m g m' g' a Hrun Ha;
    [discriminate |].
  cbn [draw_prime] in Hrun.
  destruct (mpz_rand_bitlen g (len / 2)) as [v g1].
  destruct (primality_test _ _ g1) as [r g2].
  destruct (r =? NUM_COMPOSITE).
  - rewrite (IH _ _ _ _ _ _ a Hrun Ha). now autorewrite with store.
  - injection Hrun as <- <-. now autorewrite with store.
Qed.

(** The only way out of the outer loop is the final test, right after the
    product is stored. *)
Lemma generate_loop_post (fuel : nat) : forall n p q len m g m' g',
  n <> p -> n <> q ->
  generate_loop fuel n p q len m g = Some (m', g') ->
  load m' n = load m' p * load m' q /\ mpz_sizeinbase2 (load m' n) = len.
Proof.
  induction fuel as [| fuel IH]; intros n p q len m g m' g' Hnp Hnq Hrun;
    [discriminate |].
  cbn [generate_loop] in Hrun.
  destruct (mpz_rand_bitlen g (len / 2)) as [v1 g1].
  destruct (mpz_rand_bitlen g1 (len / 2)) as [v2 g2].
  destruct (c_true _) in Hrun; [eauto |].
  destruct (draw_prime fuel p len _ g2) as [[m1 g3] |]; [| discriminate].
  destruct (draw_prime fuel q len m1 g3) as [[m2 g4] |]; [| discriminate].
  destruct (c_not _) eqn:Hcheck in Hrun; [| eauto].
  injection Hrun as <- <-.
  unfold c_not in Hcheck. apply Z.eqb_eq, mpz_check_binlen_zero in Hcheck.
  split; [| exact Hcheck].
  autorewrite with store. reflexivity.
Qed.

(** When the product of the two accepted values has the wrong length, the
    loop starts over from its first statement, with fresh draws. *)
Lemma generate_loop_restart (fuel : nat) (n p q : addr) (len : Z)
  (m m1 m2 : store) (g g1 g2 : rng) :
  let d1 := mpz_rand_bitlen g (len / 2) in
  let d2 := mpz_rand_bitlen (snd d1) (len / 2) in
  let m0 := write (write m p (fst d1)) q (fst d2) in
  let m0 := write m0 n (load m0 p * load m0 q) in
  mpz_sizeinbase2 (load m0 n) = len ->
  draw_prime fuel p len m0 (snd d2) = Some (m1, g1) ->
  draw_prime fuel q len m1 g1 = Some (m2, g2) ->
  mpz_sizeinbase2 (load m2 p * load m2 q) <> len ->
  generate_loop (S fuel) n p q len m g =
    generate_loop fuel n p q len (write m2 n (load m2 p * load m2 q)) g2.
Proof.
  cbv zeta. intros Hshape Hp Hq Hbad.
  cbn [generate_loop].
  destruct (mpz_rand_bitlen g (len / 2)) as [v1 g3]. cbn [fst snd] in *.
  destruct (mpz_rand_bitlen g3 (len / 2)) as [v2 g4]. cbn [fst snd] in *.
  unfold mpz_mul.
  apply mpz_check_binlen_zero in Hshape.
  unfold c_true at 1. rewrite Hshape. cbn [Z.eqb negb].
  rewrite Hp, Hq.
  unfold c_not. rewrite load_write_same.
  destruct (Z.eqb_spec (mpz_check_binlen (load m2 p * load m2 q) len) 0)
    as [Hz |]; [| reflexivity].
  apply mpz_check_binlen_zero in Hz. contradiction.
Qed.

Lemma generate_n_p_q_post (fuel : nat) (n p q : addr) (len : Z)
  (m : store) (g : rng) (m' : store) (g' : rng) :
  n <> p -> n <> q ->
  generate_n_p_q fuel n p q len m g = Some (0, m', g') ->
  load m' n = load m' p * load m' q /\ mpz_sizeinbase2 (load m' n) = len.
Proof.
  intros Hnp Hnq. unfold generate_n_p_q.
  destruct (_ || _); [discriminate |].
  destruct (c_true _); [discriminate |].
  destruct (generate_loop fuel n p q len m g) as [[m1 g1] |] eqn:Hloop;
    [| discriminate].
  intros [= <- <-]. eapply generate_loop_post; eauto.
Qed.

(** [generate_e_d] writes the cells of [e] and [d] only. *)
Lemma generate_e_d_frame (e d p q : addr) (m m' : store) (r : Z)
  (err : list string) (a : addr) :
  generate_e_d e d p q m = (r, m', err) -> a <> e -> a <> d ->
  load m' a = load m a.
Proof.
  unfold generate_e_d. intros Hrun Hae Had.
  destruct (_ || _); [injection Hrun as <- <- <-; reflexivity |].
  destruct (c_true _) in Hrun.
  - injection Hrun as <- <- <-. now autorewrite with store.
  - destruct (c_true _) in Hrun; injection Hrun as <- <- <-;
      now autorewrite with store.
Qed.

Lemma generate_n_p_q_rejects (fuel : nat) (n p q : addr) (len : Z)
  (m : store) (g : rng) :
  len = 0 \/ Z.odd len = true ->
  generate_n_p_q fuel n p q len m g = Some (- EINVAL, m, g).
Proof.
  intros Hlen. unfold generate_n_p_q.
  destruct ((n =? NULL) || (p =? NULL) || (q =? NULL) || (len =? 0)) eqn:Hnull;
    [reflexivity |].
  destruct Hlen as [-> | Hodd].
  - rewrite !orb_false_iff in Hnull. destruct Hnull as [_ Hz]. discriminate.
  - unfold c_true. rewrite Zmod_odd, Hodd. reflexivity.
Qed.

End KeyGeneratorFacts.

(** C3.  For an even length of at least 16, a run of [generate_key] that
    returns 0 leaves in the key a modulus that is the product of the two
    stored factors and has exactly the requested number of bits; and inside
    [generate_n_p_q], when the product recomputed from the two accepted
    factors has another length, the loop starts over with its first
    statement.  The members of the key are the distinct, non-null objects of
    one struct. *)
Theorem generate_key_modulus_bit_length `{H : GmpHelper} `{K : RsaDigestH}
  (fuel : nat) (k : rsa_key.t) (len : Z) (m : store) (g : rng)
  (m' : store) (g' : rng) (err : list string) :
  valid_members (rsa_key.members k) = true ->
  16 <= len -> Z.even len = true ->
  generate_key fuel (Some k) len m g = Some (0, m', g', err) ->
  (load m' (rsa_key.n k) = load m' (rsa_key.p k) * load m' (rsa_key.q k)
   /\ mpz_sizeinbase2 (load m' (rsa_key.n k)) = len)
  /\ (forall fuel0 ma mb mc ga gb gc,
        let d1 := mpz_rand_bitlen ga (len / 2) in
        let d2 := mpz_rand_bitlen (snd d1) (len / 2) in
        let m0 := write (write ma (rsa_key.p k) (fst d1)) (rsa_key.q k) (fst d2) in
        let m0 := write m0 (rsa_key.n k)
                    (load m0 (rsa_key.p k) * load m0 (rsa_key.q k)) in
        mpz_sizeinbase2 (load m0 (rsa_key.n k)) = len ->
        draw_prime fuel0 (rsa_key.p k) len m0 (snd d2) = Some (mb, gb) ->
        draw_prime fuel0 (rsa_key.q k) len mb gb = Some (mc, gc) ->
        mpz_sizeinbase2 (load mc (rsa_key.p k) * load mc (rsa_key.q k)) <> len ->
        generate_loop (S fuel0) (rsa_key.n k) (rsa_key.p k) (rsa_key.q k) len ma ga =
          generate_loop fuel0 (rsa_key.n k) (rsa_key.p k) (rsa_key.q k) len
            (write mc (rsa_key.n k)
               (load mc (rsa_key.p k) * load mc (rsa_key.q k))) gc).
Proof.
  intros Hvalid Hlen Heven Hrun.
  split; [| intros; apply (generate_loop_restart fuel0 _ _ _ len ma mb mc ga gb gc);
            assumption].
  destruct k as [kn kp kq ke kd kl]. cbn [rsa_key.n rsa_key.p rsa_key.q] in *.
  addr_facts Hvalid.
  unfold generate_key in Hrun.
  cbn [rsa_key.n rsa_key.p rsa_key.q rsa_key.e rsa_key.d rsa_key.key_len] in Hrun.
  destruct (generate_n_p_q fuel kn kp kq len _ g) as [[[r m1] g1] |] eqn:Hnpq;
    [| discriminate].
  unfold c_true at 1 in Hrun.
  destruct (Z.eqb_spec r 0) as [-> |]; [| discriminate].
  cbn [negb] in Hrun.
  destruct (generate_e_d ke kd kp kq m1) as [[r2 m2] err2] eqn:Hed.
  destruct (c_true r2); [discriminate |].
  injection Hrun as <- <- <-.
  assert (Hnp : kn <> kp) by assumption.
  assert (Hnq : kn <> kq) by assumption.
  pose proof (generate_n_p_q_post _ _ _ _ _ _ _ _ _ Hnp Hnq Hnpq) as Hpost.
  rewrite !(generate_e_d_frame _ _ _ _ _ _ _ _ _ Hed) by auto.
  exact Hpost.
Qed.

Lemma generate_key_modulus_bit_length_witness :
  let m' := Script.store_of
              (generate_key 5 (Some Script.key) 16 Script.zeroed
                 [63; 65; 63; 0; 65; 0]) in
  load m' 101 = load m' 102 * load m' 103 /\ mpz_sizeinbase2 (load m' 101) = 16.
Proof.
  intros m'.
  assert (Hrun : generate_key 5 (Some Script.key) 16 Script.zeroed
                   [63; 65; 63; 0; 65; 0] = Some (0, m', [], []))
    by (vm_compute; reflexivity).
  exact (proj1 (generate_key_modulus_bit_length (H := Script.helper)
                  5 Script.key 16 Script.zeroed [63; 65; 63; 0; 65; 0]
                  m' [] [] eq_refl ltac:(lia) eq_refl Hrun)).
Defined.

(** The run of the witness: the first pair drawn is 191 and 193, both prime
    loops accept their first candidate, and the key holds n = 36863 = 191 * 193
    on 16 bits. *)
Example generate_key_16_run :
  let run := generate_key 5 (Some Script.key) 16 Script.zeroed
               [63; 65; 63; 0; 65; 0] in
  Script.ret_of run = Some 0
  /\ map (load (Script.store_of run)) (rsa_key.members Script.key)
     = [36863; 191; 193; 65537; 19073; 16].
Proof. vm_compute. split; reflexivity. Qed.

(** A run that meets a product of the wrong length after both prime loops:
    the factors 191 and 137 give 26167 on 15 bits, and the loop starts over
    and settles on 191 and 193. *)
Example generate_key_16_restart :
  let run := generate_key 5 (Some Script.key) 16 Script.zeroed
               [63; 65; 63; 0; 9; 0; 63; 65; 63; 0; 65; 0] in
  Script.ret_of run = Some 0
  /\ map (load (Script.store_of run)) (rsa_key.members Script.key)
     = [36863; 191; 193; 65537; 19073; 16].
Proof. vm_compute. split; reflexivity. Qed.

(** C4, as amended.  For a length that is zero or odd, [generate_n_p_q]
    returns [-EINVAL] before its loop, with the store and the random source as
    it found them; [generate_key] turns every failure of [generate_n_p_q] into
    [-EFAULT], so that is what it returns for a key that is not null, having
    written [key_len] and one line on [stderr] and nothing else.  Only a null
    key makes [generate_key] itself return [-EINVAL]. *)
Theorem generate_key_rejects_zero_or_odd `{H : GmpHelper} `{K : RsaDigestH}
  (fuel : nat) (k : rsa_key.t) (len : Z) (m : store) (g : rng) :
  len = 0 \/ Z.odd len = true ->
  generate_n_p_q fuel (rsa_key.n k) (rsa_key.p k) (rsa_key.q k) len m g
    = Some (- EINVAL, m, g)
  /\ generate_key fuel (Some k) len m g
     = Some (- EFAULT, write m (rsa_key.key_len k) len, g,
             ["failed to generate N, P, Q factors"%string])
  /\ generate_key fuel None len m g = Some (- EINVAL, m, g, []).
Proof.
  intros Hlen. split; [| split].
  - apply generate_n_p_q_rejects. exact Hlen.
  - unfold generate_key. rewrite generate_n_p_q_rejects by exact Hlen.
    reflexivity.
  - reflexivity.
Qed.

Lemma generate_key_rejects_zero_or_odd_witness :
  generate_n_p_q 9 101 102 103 17 Script.zeroed [1; 2; 3]
    = Some (- EINVAL, Script.zeroed, [1; 2; 3])
  /\ generate_key 9 (Some Script.key) 17 Script.zeroed [1; 2; 3]
     = Some (- EFAULT, write Script.zeroed 106 17, [1; 2; 3],
             ["failed to generate N, P, Q factors"%string])
  /\ generate_key 9 None 17 Script.zeroed [1; 2; 3]
     = Some (- EINVAL, Script.zeroed, [1; 2; 3], []).
Proof.
  apply (generate_key_rejects_zero_or_odd (H := Script.helper)
           9 Script.key 17 Script.zeroed [1; 2; 3]).
  right. reflexivity.
Defined.

(** C4 as stated fails: for the lengths 0 and 17 and a key that is not null,
    [generate_key] returns [-EFAULT] (-14), not [-EINVAL] (-22). *)
Lemma generate_key_zero_or_odd_not_einval :
  Script.ret_of (generate_key 9 (Some Script.key) 0 Script.zeroed [1; 2; 3])
    = Some (- EFAULT)
  /\ Script.ret_of (generate_key 9 (Some Script.key) 17 Script.zeroed [1; 2; 3])
     = Some (- EFAULT)
  /\ - EFAULT <> - EINVAL.
Proof. split; [| split]; [reflexivity | reflexivity | discriminate]. Qed.

(** The step of C2 inside [generate_e_d]: whenever (p - 1) (q - 1) is at
    least 2, a return value of 0 means that 65537 and the stored d are inverse
    to each other. *)
Lemma generate_e_d_inverse_phi (e d p q : addr) (m m' : store)
  (err : list string) :
  e <> d ->
  2 <= (load m p - 1) * (load m q - 1) ->
  generate_e_d e d p q m = (0, m', err) ->
  load m' e = 65537
  /\ (load m' e * load m' d) mod ((load m p - 1) * (load m q - 1)) = 1
  /\ err = [].
Proof.
  intros Hed Hphi Hrun.
  unfold generate_e_d, mpz_sub_ui, mpz_mul, mpz_gcd, mpz_cmp_ui, mpz_mod,
    mpz_invert in Hrun.
  destruct ((e =? NULL) || (d =? NULL)); [discriminate |].
  rewrite load_write_same in Hrun.
  rewrite c_true_mpz_cmp in Hrun.
  destruct (Z.eqb_spec (Z.gcd 65537 ((load m p - 1) * (load m q - 1))) 1)
    as [Hgcd |]; [| discriminate].
  cbn [negb snd] in Hrun.
  rewrite load_write_same, load_write_other, load_write_same in Hrun by auto.
  rewrite Z.abs_eq, Z.mul_comm, Z.invmod_coprime in Hrun by (trivial; lia).
  cbn in Hrun. injection Hrun as <- <-.
  rewrite load_write_same, load_write_other, load_write_same by auto.
  rewrite Z.mul_comm, Z.invmod_coprime by (trivial; lia).
  auto.
Qed.

(** A key that [generate_key] returns never has p = q = 2: the modulus 4 has
    three bits and the length is even.  So every generated key whose factors
    are prime has the two exponents inverse to each other. *)
Lemma generate_key_exponents `{H : GmpHelper} `{K : RsaDigestH}
  (fuel : nat) (k : rsa_key.t) (len : Z) (m : store) (g : rng)
  (m' : store) (g' : rng) (err : list string) :
  valid_members (rsa_key.members k) = true ->
  generate_key fuel (Some k) len m g = Some (0, m', g', err) ->
  Z.prime (load m' (rsa_key.p k)) -> Z.prime (load m' (rsa_key.q k)) ->
  load m' (rsa_key.e k) = 65537
  /\ (load m' (rsa_key.e k) * load m' (rsa_key.d k))
       mod ((load m' (rsa_key.p k) - 1) * (load m' (rsa_key.q k) - 1)) = 1
  /\ err = [].
Proof.
  intros Hvalid Hrun Hp Hq.
  destruct k as [kn kp kq ke kd kl].
  cbn [rsa_key.n rsa_key.p rsa_key.q rsa_key.e rsa_key.d] in *.
  addr_facts Hvalid.
  unfold generate_key in Hrun.
  cbn [rsa_key.n rsa_key.p rsa_key.q rsa_key.e rsa_key.d rsa_key.key_len] in Hrun.
  destruct (generate_n_p_q fuel kn kp kq len _ g) as [[[r m1] g1] |] eqn:Hnpq;
    [| discriminate].
  unfold c_true at 1 in Hrun.
  destruct (Z.eqb_spec r 0) as [-> |]; [| discriminate].
  cbn [negb] in Hrun.
  destruct (generate_e_d ke kd kp kq m1) as [[r2 m2] err2] eqn:Hed.
  unfold c_true in Hrun.
  destruct (Z.eqb_spec r2 0) as [-> |]; [| discriminate].
  injection Hrun as <- <- <-.
  assert (Hnp : kn <> kp) by assumption.
  assert (Hnq : kn <> kq) by assumption.
  assert (Hed' : ke <> kd) by assumption.
  pose proof (generate_n_p_q_post _ _ _ _ _ _ _ _ _ Hnp Hnq Hnpq) as [Hn Hbits].
  assert (Heven : len mod 2 = 0).
  { unfold generate_n_p_q in Hnpq.
    destruct (_ || _) in Hnpq; [discriminate |].
    unfold c_true in Hnpq.
    destruct (Z.eqb_spec (len mod 2) 0); [assumption | discriminate]. }
  assert (Hpm : load m2 kp = load m1 kp)
    by (apply (generate_e_d_frame _ _ _ _ _ _ _ _ _ Hed); auto).
  assert (Hqm : load m2 kq = load m1 kq)
    by (apply (generate_e_d_frame _ _ _ _ _ _ _ _ _ Hed); auto).
  rewrite Hpm, Hqm in *.
  apply (generate_e_d_inverse_phi ke kd kp kq m1 m2 err2 Hed'); [| exact Hed].
  apply Z.prime_ge_2 in Hp, Hq.
  assert (Hnot2 : ~ (load m1 kp = 2 /\ load m1 kq = 2)).
  { intros [Hp2 Hq2]. rewrite Hn, Hp2, Hq2 in Hbits. subst len. discriminate. }
  clear - Hp Hq Hnot2. nia.
Qed.

(** C2.  For every key that [generate_key] returns with 0, given that the
    two factors p and q it left in the key are prime: the key holds
    e = 65537 and the d derived by [generate_e_d] satisfies
    e * d mod (p - 1) (q - 1) = 1; the self-check of [generate_e_d] has
    written nothing on [stderr]. *)
Theorem generated_key_e_d_inverse `{H : GmpHelper} `{K : RsaDigestH}
  (fuel : nat) (k : rsa_key.t) (len : Z) (m : store) (g : rng)
  (m' : store) (g' : rng) (err : list string) :
  valid_members (rsa_key.members k) = true ->
  generate_key fuel (Some k) len m g = Some (0, m', g', err) ->
  Z.prime (load m' (rsa_key.p k)) -> Z.prime (load m' (rsa_key.q k)) ->
  let phi := (load m' (rsa_key.p k) - 1) * (load m' (rsa_key.q k) - 1) in
  load m' (rsa_key.e k) = 65537
  /\ (load m' (rsa_key.e k) * load m' (rsa_key.d k)) mod phi = 1
  /\ err = [].
Proof.
  intros Hvalid Hrun Hp Hq phi. subst phi.
  exact (generate_key_exponents fuel k len m g m' g' err Hvalid Hrun Hp Hq).
Qed.

Lemma generated_key_e_d_inverse_witness :
  let m' := Script.store_of
              (generate_key 5 (Some Script.key) 16 Script.zeroed
                 [63; 65; 63; 0; 65; 0]) in
  let phi := (load m' (rsa_key.p Script.key) - 1)
             * (load m' (rsa_key.q Script.key) - 1) in
  load m' (rsa_key.e Script.key) = 65537
  /\ (load m' (rsa_key.e Script.key) * load m' (rsa_key.d Script.key))
       mod phi = 1
  /\ @nil string = [].
Proof.
  intros m'.
  assert (Hvalid : valid_members (rsa_key.members Script.key) = true)
    by reflexivity.
  assert (Hrun : generate_key 5 (Some Script.key) 16 Script.zeroed
                   [63; 65; 63; 0; 65; 0] = Some (0, m', [], []))
    by (vm_compute; reflexivity).
  assert (Hp : Z.prime (load m' (rsa_key.p Script.key)))
    by (apply prime_check_sound; vm_compute; reflexivity).
  assert (Hq : Z.prime (load m' (rsa_key.q Script.key)))
    by (apply prime_check_sound; vm_compute; reflexivity).
  exact (generated_key_e_d_inverse (H := Script.helper) 5 Script.key 16
           Script.zeroed [63; 65; 63; 0; 65; 0] m' [] [] Hvalid Hrun Hp Hq).
Defined.

(** ** The projections *)

(** C9, as amended.  The two projections return [-EINVAL] for a null key and
    for nothing else: the tests on [key->n] and on the exponent look at the
    addresses of members, which are never null, not at the numbers stored
    there.  For a key that is not null they return 0, having copied the
    numbers of the modulus, of the exponent (d for the public projection, e
    for the private one) and [key_len] into the projection's own cells; every
    other cell, the source key included, is as before, and a later write to a
    member of the source does not reach the projection. *)
Theorem projections_copy (key : rsa_key.t) (pub : rsa_public.t)
  (priv : rsa_private.t) (m : store) :
  valid_members (rsa_key.members key) = true ->
  valid_members (rsa_public.members pub) = true ->
  valid_members (rsa_private.members priv) = true ->
  disjoint (rsa_public.members pub) (rsa_key.members key) = true ->
  disjoint (rsa_private.members priv) (rsa_key.members key) = true ->
  (generate_public_key None pub m = (- EINVAL, m)
   /\ fst (generate_public_key (Some key) pub m) = 0
   /\ let m' := snd (generate_public_key (Some key) pub m) in
      copied m m' [rsa_key.n key; rsa_key.d key; rsa_key.key_len key]
                  (rsa_public.members pub)
      /\ forall a v, In a (rsa_key.members key) ->
           map (load (write m' a v)) (rsa_public.members pub)
           = map (load m') (rsa_public.members pub))
  /\ (generate_private_key None priv m = (- EINVAL, m)
      /\ fst (generate_private_key (Some key) priv m) = 0
      /\ let m' := snd (generate_private_key (Some key) priv m) in
         copied m m' [rsa_key.n key; rsa_key.e key; rsa_key.key_len key]
                     (rsa_private.members priv)
         /\ forall a v, In a (rsa_key.members key) ->
              map (load (write m' a v)) (rsa_private.members priv)
              = map (load m') (rsa_private.members priv)).
Proof.
  intros Hkey Hpub Hpriv Hdpub Hdpriv.
  destruct key as [kn kp kq ke kd kl], pub as [un ud ul], priv as [vn ve vl].
  addr_facts Hkey. addr_facts Hpub. addr_facts Hpriv.
  addr_facts Hdpub. addr_facts Hdpriv.
  unfold generate_public_key, generate_private_key, mpz_set, copied,
    rsa_key.members, rsa_public.members, rsa_private.members.
  cbn [rsa_key.n rsa_key.p rsa_key.q rsa_key.e rsa_key.d rsa_key.key_len
       rsa_public.n rsa_public.d rsa_public.key_len rsa_public.members
       rsa_private.n rsa_private.e rsa_private.key_len rsa_private.members
       rsa_key.members].
  unfold NULL.
  destruct (Z.eqb_spec kn 0); [contradiction |].
  destruct (Z.eqb_spec kd 0); [contradiction |].
  destruct (Z.eqb_spec ke 0); [contradiction |].
  cbn [orb fst snd map].
  split; (split; [reflexivity |]); (split; [reflexivity |]); split.
  - split.
    + now autorewrite with store.
    + intros a Ha. cbn [In] in Ha.
      assert (a <> un /\ a <> ud /\ a <> ul) as (? & ? & ?)
        by (repeat split; intros ->; tauto).
      now autorewrite with store.
  - intros a v Ha. cbn [In] in Ha.
    assert (un <> a /\ ud <> a /\ ul <> a) as (? & ? & ?)
      by (repeat split; intros <-; intuition congruence).
    rewrite !(load_write_other _ a) by assumption. reflexivity.
  - split.
    + now autorewrite with store.
    + intros a Ha. cbn [In] in Ha.
      assert (a <> vn /\ a <> ve /\ a <> vl) as (? & ? & ?)
        by (repeat split; intros ->; tauto).
      now autorewrite with store.
  - intros a v Ha. cbn [In] in Ha.
    assert (vn <> a /\ ve <> a /\ vl <> a) as (? & ? & ?)
      by (repeat split; intros <-; intuition congruence).
    rewrite !(load_write_other _ a) by assumption. reflexivity.
Qed.

Lemma projections_copy_witness :
  let m := write (write (write Script.zeroed 101 36863) 105 19073) 106 16 in
  fst (generate_public_key (Some Script.key) Script.pub m) = 0
  /\ copied m (snd (generate_public_key (Some Script.key) Script.pub m))
       [101; 105; 106] [201; 202; 203]
  /\ fst (generate_private_key (Some Script.key) Script.priv m) = 0.
Proof.
  intros m.
  pose proof (projections_copy Script.key Script.pub Script.priv m
                eq_refl eq_refl eq_refl eq_refl eq_refl) as [Hpub Hpriv].
  split; [exact (proj1 (proj2 Hpub)) |].
  split; [exact (proj1 (proj2 (proj2 Hpub))) | exact (proj1 (proj2 Hpriv))].
Defined.

(** C9 as stated fails on a key whose numbers are all zero, as
    [rsa_key_init] leaves them: both projections return 0, not [-EINVAL], and
    the projection receives the zeros. *)
Lemma projections_accept_zero_key :
  map (load Script.zeroed) (rsa_key.members Script.key) = [0; 0; 0; 0; 0; 0]
  /\ fst (generate_public_key (Some Script.key) Script.pub Script.zeroed) = 0
  /\ fst (generate_private_key (Some Script.key) Script.priv Script.zeroed) = 0
  /\ 0 <> - EINVAL.
Proof. repeat split; discriminate. Qed.

(** ** Modular exponentiation undoes itself *)

Lemma pow_cycle_mod_prime (p x j : Z) :
  Z.prime p -> 0 <= j -> x ^ (1 + (p - 1) * j) mod p = x mod p.
Proof.
  intros Hp Hj. pose proof (Z.prime_ge_2 p Hp) as Hp2.
  rewrite Z.pow_add_r, Z.pow_1_r by nia.
  rewrite Z.pow_mul_r by lia.
  rewrite Z.mul_mod by lia.
  destruct (Z.eq_dec (x mod p) 0) as [Hz | Hnz].
  - rewrite Hz. rewrite Z.mul_0_l. apply Z.mod_0_l. lia.
  - rewrite <- (Z.mod_pow_l (x ^ (p - 1))).
    rewrite Z.fermat_nz by assumption.
    rewrite Z.pow_1_l by lia.
    rewrite (Z.mod_1_l p) by lia.
    rewrite Z.mul_1_r. apply Z.mod_mod. lia.
Qed.

Lemma distinct_primes_coprime (p q : Z) :
  Z.prime p -> Z.prime q -> p <> q -> Z.gcd p q = 1.
Proof.
  intros Hp Hq Hne. apply Z.coprime_prime_l; [exact Hp |].
  intros Hdiv. apply Hne. apply Z.divide_prime_prime; assumption.
Qed.

Lemma cong_mod_product (p q a b : Z) :
  0 < p -> 0 < q -> Z.gcd p q = 1 ->
  a mod p = b mod p -> a mod q = b mod q -> a mod (p * q) = b mod (p * q).
Proof.
  intros Hp Hq Hg Hap Haq.
  apply Z.cong_iff_0 in Hap, Haq. apply Z.cong_iff_0.
  apply Z.mod_divide in Hap, Haq; try lia.
  apply Z.mod_divide; [nia |].
  destruct Haq as [t Ht]. rewrite Ht in Hap |- *.
  rewrite Z.mul_comm in Hap. apply Z.gauss in Hap; [| exact Hg].
  destruct Hap as [s ->]. exists s. ring.
Qed.

Lemma rsa_exponents_cancel (p q e d x : Z) :
  Z.prime p -> Z.prime q -> p <> q -> 0 <= e -> 0 <= d ->
  (e * d) mod ((p - 1) * (q - 1)) = 1 ->
  x ^ (e * d) mod (p * q) = x mod (p * q).
Proof.
  intros Hp Hq Hne He Hd Hinv.
  pose proof (Z.prime_ge_2 p Hp) as Hp2. pose proof (Z.prime_ge_2 q Hq) as Hq2.
  assert (Hphi : 0 < (p - 1) * (q - 1)) by nia.
  pose proof (Z.div_mod (e * d) ((p - 1) * (q - 1)) ltac:(lia)) as Hdm.
  rewrite Hinv in Hdm.
  assert (Hk : 0 <= e * d / ((p - 1) * (q - 1))) by (apply Z.div_pos; nia).
  set (k := e * d / ((p - 1) * (q - 1))) in *.
  apply cong_mod_product; try lia.
  - apply distinct_primes_coprime; assumption.
  - replace (e * d) with (1 + (p - 1) * ((q - 1) * k)) by lia.
    apply pow_cycle_mod_prime; [assumption | nia].
  - replace (e * d) with (1 + (q - 1) * ((p - 1) * k)) by lia.
    apply pow_cycle_mod_prime; [assumption | nia].
Qed.

(** [rsa_docrypt] with one exponent, then with the other. *)
Lemma rsa_docrypt_inverse (p q e d x : Z) :
  Z.prime p -> Z.prime q -> p <> q -> 0 <= e -> 0 <= d ->
  (e * d) mod ((p - 1) * (q - 1)) = 1 ->
  0 <= x < p * q ->
  rsa_docrypt (rsa_docrypt x e (p * q)) d (p * q) = x.
Proof.
  intros Hp Hq Hne He Hd Hinv Hx.
  pose proof (Z.prime_ge_2 p Hp). pose proof (Z.prime_ge_2 q Hq).
  unfold rsa_docrypt. rewrite !mpz_powm_spec by nia.
  rewrite Z.mod_pow_l, <- Z.pow_mul_r by lia.
  rewrite (rsa_exponents_cancel p q e d x) by assumption.
  apply Z.mod_small. exact Hx.
Qed.

(** ** [%Zx] written, then read *)

Lemma hex_digit_facts (v : Z) :
  0 <= v < 16 ->
  hex_value (hex_digit v) = Some v
  /\ isspace (hex_digit v) = false
  /\ Ascii.eqb (hex_digit v) minus = false
  /\ Ascii.eqb (hex_digit v) plus = false.
Proof.
  intros Hv.
  assert (Hcases : v = 0 \/ v = 1 \/ v = 2 \/ v = 3 \/ v = 4 \/ v = 5 \/ v = 6
                   \/ v = 7 \/ v = 8 \/ v = 9 \/ v = 10 \/ v = 11 \/ v = 12
                   \/ v = 13 \/ v = 14 \/ v = 15) by lia.
  repeat (destruct Hcases as [-> | Hcases]; [vm_compute; auto |]).
  subst v. vm_compute. auto.
Qed.

Lemma code_range (c : ascii) : 0 <= code c < 256.
Proof.
  unfold code. pose proof (N_ascii_bounded c). lia.
Qed.

Lemma char_code (c : ascii) : char (code c) = c.
Proof.
  unfold char, code. rewrite N2Z.id. apply ascii_N_embedding.
Qed.

Lemma newline_facts : hex_value newline = None /\ isspace newline = true.
Proof. split; reflexivity. Qed.

Lemma hex_digits_head (fuel : nat) : forall v acc,
  0 <= v -> fuel <> O \/ digit_head acc -> digit_head (hex_digits fuel v acc).
Proof.
  induction fuel as [| fuel IH]; intros v acc Hv Hcase.
  - destruct Hcase as [Hf | Hacc]; [contradiction | exact Hacc].
  - cbn [hex_digits].
    assert (Hhead : digit_head (hex_digit (v mod 16) :: acc)).
    { exists (v mod 16), acc. split; [apply Z.mod_pos_bound; lia | reflexivity]. }
    destruct (v / 16 =? 0); [exact Hhead |].
    apply IH; [apply Z.div_pos; lia | right; exact Hhead].
Qed.

Lemma scan_hex_digits (fuel : nat) : forall v acc rest,
  0 <= v < 16 ^ Z.of_nat fuel ->
  scan_hex 0 (hex_digits fuel v acc ++ rest) = scan_hex v (acc ++ rest).
Proof.
  induction fuel as [| fuel IH]; intros v acc rest Hv.
  - change (16 ^ Z.of_nat 0) with 1 in Hv. assert (v = 0) by lia. subst v.
    reflexivity.
  - cbn [hex_digits].
    pose proof (Z.mod_pos_bound v 16 ltac:(lia)) as Hmod.
    pose proof (Z.div_mod v 16 ltac:(lia)) as Hdm.
    destruct (hex_digit_facts (v mod 16) Hmod) as [Hval _].
    destruct (Z.eqb_spec (v / 16) 0) as [Hz | Hnz].
    + cbn [app scan_hex]. rewrite Hval. f_equal. lia.
    + rewrite IH.
      * cbn [app scan_hex]. rewrite Hval. f_equal. lia.
      * rewrite Nat2Z.inj_succ, Z.pow_succ_r in Hv by lia.
        split; [apply Z.div_pos; lia | apply Z.div_lt_upper_bound; lia].
Qed.

Lemma format_Zx_nonneg (v : Z) :
  0 <= v ->
  digit_head (format_Zx v)
  /\ forall rest, scan_hex 0 (format_Zx v ++ rest) = scan_hex v rest.
Proof.
  intros Hv. unfold format_Zx.
  destruct (Z.ltb_spec v 0); [lia |]. rewrite Z.abs_eq by lia. cbn [app].
  split.
  - apply hex_digits_head; [exact Hv | left; discriminate].
  - intros rest. rewrite scan_hex_digits; [reflexivity |].
    split; [exact Hv |].
    rewrite Nat2Z.inj_succ, Z2Nat.id by apply Z.log2_nonneg.
    destruct (Z.eq_dec v 0) as [-> | Hnz]; [reflexivity |].
    pose proof (Z.log2_spec v ltac:(lia)) as [_ Hup].
    eapply Z.lt_le_trans; [exact Hup |].
    apply Z.pow_le_mono_l. lia.
Qed.

Lemma skip_space_app (ws s : list ascii) :
  forallb isspace ws = true -> skip_space (ws ++ s) = skip_space s.
Proof.
  induction ws as [| c ws IH]; intros Hws; [reflexivity |].
  cbn [forallb] in Hws. apply andb_true_iff in Hws as [Hc Hws].
  cbn [app skip_space]. rewrite Hc. apply IH. exact Hws.
Qed.

(** Reading back one line written by [gmp_fprintf (f, "%Zx\n", v)], after any
    white space: the number is recovered, the newline stays unread and the
    indicator is not set. *)
Lemma gmp_fscanf_Zx_line (ws rest : list ascii) (v dst : Z) :
  forallb isspace ws = true -> 0 <= v ->
  gmp_fscanf_Zx (mkFILE (ws ++ format_Zx v ++ newline :: rest) false) dst
  = (1, v, mkFILE (newline :: rest) false).
Proof.
  intros Hws Hv. unfold gmp_fscanf_Zx. cbn [buf eof].
  rewrite skip_space_app by exact Hws.
  destruct (format_Zx_nonneg v Hv) as [(dg & tl & Hdg & Htext) Hscan].
  specialize (Hscan (newline :: rest)).
  rewrite Htext in *. cbn [app skip_space] in *.
  destruct (hex_digit_facts dg Hdg) as (Hval & Hsp & Hminus & Hplus).
  rewrite Hsp, Hminus, Hplus. cbn [orb].
  rewrite Hval.
  rewrite Hscan. reflexivity.
Qed.

(** ** The two file loops *)

Lemma encrypt_loop_text (e n : Z) : forall plain fuel out,
  (List.length plain < fuel)%nat ->
  encrypt_loop fuel (mkFILE plain false) out e n
  = Returned 0 (out ++ cipher_text plain e n).
Proof.
  induction plain as [| c plain IH]; intros fuel out Hfuel;
    (destruct fuel as [| fuel]; [cbn [List.length] in Hfuel; lia |]).
  - cbn. rewrite app_nil_r. reflexivity.
  - cbn [encrypt_loop feof eof fgetc buf].
    pose proof (code_range c) as Hc.
    destruct (Z.eqb_spec (code c) EOF) as [Heof |]; [unfold EOF in Heof; lia |].
    unfold to_uint8. rewrite Z.mod_small by lia.
    rewrite IH by (cbn [List.length] in Hfuel; lia).
    unfold gmp_fprintf_Zx_nl, cipher_text. cbn [map token_lines flat_map].
    rewrite <- !app_assoc. reflexivity.
Qed.

(** The loop of [rsa_decrypt_file] on well-formed lines followed by the end
    of the file: one byte per line, and a silent return at the end. *)
Lemma decrypt_loop_lines (e n : Z) : forall vs ws dencry out fuel,
  forallb isspace ws = true ->
  (List.length vs < fuel)%nat ->
  Forall (fun v => 0 <= v) vs ->
  decrypt_loop fuel (mkFILE (ws ++ token_lines vs) false) dencry out e n
  = Returned 0 (out ++ map (decrypted_byte e n) vs).
Proof.
  induction vs as [| v vs IH]; intros ws dencry out fuel Hws Hfuel Hpos;
    (destruct fuel as [| fuel]; [cbn [List.length] in Hfuel; lia |]).
  - cbn [decrypt_loop feof eof token_lines flat_map].
    unfold gmp_fscanf_Zx. cbn [buf].
    rewrite skip_space_app by exact Hws. cbn.
    rewrite app_nil_r. reflexivity.
  - cbn [decrypt_loop feof eof token_lines flat_map].
    rewrite <- app_assoc. cbn [app].
    inversion Hpos as [| v' vs' Hv Hvs]; subst.
    rewrite gmp_fscanf_Zx_line by trivial.
    cbn [feof eof].
    change (newline :: flat_map (fun v0 => format_Zx v0 ++ [newline]) vs)
      with ([newline] ++ token_lines vs).
    rewrite IH.
    + unfold fputc, decrypted_byte. cbn [map]. rewrite <- app_assoc. reflexivity.
    + reflexivity.
    + cbn [List.length] in Hfuel. lia.
    + exact Hvs.
Qed.

Lemma decrypted_byte_inverse (p q e d : Z) (plain : list ascii) :
  Z.prime p -> Z.prime q -> p <> q -> 255 < p * q -> 0 <= e -> 0 <= d ->
  (e * d) mod ((p - 1) * (q - 1)) = 1 ->
  map (decrypted_byte d (p * q))
      (map (fun c => rsa_docrypt (code c) e (p * q)) plain) = plain.
Proof.
  intros Hp Hq Hne Hn He Hd Hinv.
  rewrite map_map. rewrite <- (map_id plain) at 2.
  apply map_ext. intros c.
  pose proof (code_range c) as Hc.
  unfold decrypted_byte, to_uint8, mpz_get_ui.
  rewrite (rsa_docrypt_inverse p q) by (trivial; lia).
  rewrite Z.abs_eq by lia.
  rewrite (Z.mod_small (code c) (2 ^ 64))
    by (split; [lia | now apply Z.lt_trans with 256]).
  rewrite (Z.mod_small (code c) (2 ^ 8))
    by (split; [lia | now apply Z.lt_le_trans with 256]).
  apply char_code.
Qed.

Lemma file_round_trip (p q e d : Z) (plain : list ascii) (fuel : nat) :
  Z.prime p -> Z.prime q -> p <> q -> 255 < p * q -> 0 <= e -> 0 <= d ->
  (e * d) mod ((p - 1) * (q - 1)) = 1 ->
  (List.length plain < fuel)%nat ->
  exists text,
    rsa_encrypt_file fuel plain e (p * q) = Returned 0 text
    /\ rsa_decrypt_file fuel text d (p * q) = Returned 0 plain.
Proof.
  intros Hp Hq Hne Hn He Hd Hinv Hfuel.
  exists (cipher_text plain e (p * q)). split.
  - unfold rsa_encrypt_file, fopen_r. rewrite encrypt_loop_text by exact Hfuel.
    reflexivity.
  - unfold rsa_decrypt_file, fopen_r, cipher_text.
    change (token_lines (map (fun c => rsa_docrypt (code c) e (p * q)) plain))
      with ([] ++ token_lines (map (fun c => rsa_docrypt (code c) e (p * q)) plain)).
    rewrite (decrypt_loop_lines d (p * q) _ [] 0 [] fuel).
    + cbn [app]. f_equal. apply (decrypted_byte_inverse p q e d); assumption.
    + reflexivity.
    + rewrite length_map. exact Hfuel.
    + apply Forall_map, Forall_forall. intros c _.
      apply mpz_powm_range; lia.
Qed.

(** C1, as amended.  For two distinct primes p and q with p * q > 255 and
    two non-negative exponents with e * d mod (p - 1) (q - 1) = 1:
    [rsa_docrypt] with one exponent and then with the other gives back every
    x in [0, p * q), in both orders; and [rsa_decrypt_file] with one exponent
    returns, from the file [rsa_encrypt_file] wrote with the other, exactly the
    bytes of the plain file, in both orders, both loops ending within one turn
    per byte plus one. *)
Theorem rsa_round_trip (p q e d : Z) :
  Z.prime p -> Z.prime q -> p <> q -> 255 < p * q -> 0 <= e -> 0 <= d ->
  (e * d) mod ((p - 1) * (q - 1)) = 1 ->
  (forall x, 0 <= x < p * q ->
     rsa_docrypt (rsa_docrypt x e (p * q)) d (p * q) = x
     /\ rsa_docrypt (rsa_docrypt x d (p * q)) e (p * q) = x)
  /\ (forall plain fuel, (List.length plain < fuel)%nat ->
        exists text,
          rsa_encrypt_file fuel plain e (p * q) = Returned 0 text
          /\ rsa_decrypt_file fuel text d (p * q) = Returned 0 plain)
  /\ (forall plain fuel, (List.length plain < fuel)%nat ->
        exists text,
          rsa_encrypt_file fuel plain d (p * q) = Returned 0 text
          /\ rsa_decrypt_file fuel text e (p * q) = Returned 0 plain).
Proof.
  intros Hp Hq Hne Hn He Hd Hinv.
  assert (Hinv' : (d * e) mod ((p - 1) * (q - 1)) = 1)
    by (rewrite Z.mul_comm; exact Hinv).
  split; [| split].
  - intros x Hx. split; apply (rsa_docrypt_inverse p q); assumption.
  - intros plain fuel Hfuel. apply (file_round_trip p q e d); assumption.
  - intros plain fuel Hfuel. apply (file_round_trip p q d e); assumption.
Qed.

Lemma rsa_round_trip_witness :
  rsa_docrypt (rsa_docrypt 255 65537 (191 * 193)) 19073 (191 * 193) = 255
  /\ exists text,
       rsa_encrypt_file 4 (Script.text "RSA") 19073 (191 * 193) = Returned 0 text
       /\ rsa_decrypt_file 4 text 65537 (191 * 193)
          = Returned 0 (Script.text "RSA").
Proof.
  assert (H191 : Z.prime 191) by (apply prime_check_sound; vm_compute; reflexivity).
  assert (H193 : Z.prime 193) by (apply prime_check_sound; vm_compute; reflexivity).
  assert (Hne : 191 <> 193) by discriminate.
  assert (Hn : 255 < 191 * 193) by reflexivity.
  assert (He : 0 <= 65537) by discriminate.
  assert (Hd : 0 <= 19073) by discriminate.
  assert (Hinv : (65537 * 19073) mod ((191 - 1) * (193 - 1)) = 1) by reflexivity.
  pose proof (rsa_round_trip 191 193 65537 19073 H191 H193 Hne Hn He Hd Hinv)
    as (Hbyte & _ & Hfile).
  assert (Hx : 0 <= 255 < 191 * 193) by (split; [discriminate | reflexivity]).
  assert (Hfuel : (List.length (Script.text "RSA") < 4)%nat) by (cbn; lia).
  pose proof (Hbyte 255 Hx) as [Hb _].
  pose proof (Hfile (Script.text "RSA") 4%nat Hfuel) as Hf.
  split; [exact Hb | exact Hf].
Defined.

(** C1 as stated fails when the two primes are equal.  With p = q = 23 the
    modulus is 529 > 255 and (p - 1) (q - 1) = 484; the exponents 65537 and
    285 are inverses modulo 484 (this is the key [generate_key] produces for
    the length 10 when every raw draw is 7), and 65537 and 10449 are inverses
    modulo 484 and modulo 506, the totient of 529.  In both cases the byte 23
    comes back as 0; through the two files and the generated key, the bytes
    23 and 65 come back as 0 and 13. *)
Lemma rsa_round_trip_fails_on_square :
  Z.prime 23 /\ 255 < 23 * 23 /\ 0 <= 23 < 23 * 23
  /\ (65537 * 285) mod ((23 - 1) * (23 - 1)) = 1
  /\ rsa_docrypt (rsa_docrypt 23 65537 (23 * 23)) 285 (23 * 23) = 0
  /\ (65537 * 10449) mod ((23 - 1) * (23 - 1)) = 1
  /\ (65537 * 10449) mod (23 * (23 - 1)) = 1
  /\ rsa_docrypt (rsa_docrypt 23 65537 (23 * 23)) 10449 (23 * 23) = 0
  /\ (exists text,
        rsa_encrypt_file 3 [char 23; char 65] 65537 (23 * 23) = Returned 0 text
        /\ rsa_decrypt_file 3 text 285 (23 * 23) = Returned 0 [char 0; char 13]).
Proof.
  split; [apply prime_check_sound; vm_compute; reflexivity |].
  split; [reflexivity |].
  split; [split; [discriminate | reflexivity] |].
  do 5 (split; [vm_compute; reflexivity |]).
  exists (cipher_text [char 23; char 65] 65537 (23 * 23)).
  split; vm_compute; reflexivity.
Qed.

(** How [generate_key] comes to p = q = 23. *)
Example generate_key_10_square :
  let run := generate_key 5 (Some Script.key) 10 Script.zeroed [7; 7; 7; 0; 7; 0] in
  Script.ret_of run = Some 0
  /\ map (load (Script.store_of run)) (rsa_key.members Script.key)
     = [529; 23; 23; 65537; 285; 10].
Proof. vm_compute. split; reflexivity. Qed.

(** ** A malformed token *)

(** On a character that cannot start a number, [gmp_fscanf] consumes the
    white space before it and nothing else, assigns nothing and leaves the
    end-of-file indicator alone. *)
Lemma gmp_fscanf_Zx_malformed (ws rest : list ascii) (c : ascii) (dst : Z) :
  forallb isspace ws = true -> malformed c = true ->
  gmp_fscanf_Zx (mkFILE (ws ++ c :: rest) false) dst
  = (0, dst, mkFILE (c :: rest) false).
Proof.
  intros Hws Hbad. unfold malformed in Hbad.
  rewrite !andb_true_iff, !negb_true_iff in Hbad.
  destruct Hbad as [[[Hsp Hminus] Hplus] Hhex].
  unfold gmp_fscanf_Zx. cbn [buf eof].
  rewrite skip_space_app by exact Hws. cbn [skip_space].
  rewrite Hsp, Hminus, Hplus. cbn [orb].
  destruct (hex_value c); [discriminate | reflexivity].
Qed.

(** From there on every turn of the loop decrypts the number [dencry] still
    holds and writes the same byte again. *)
Lemma decrypt_loop_stuck (e n : Z) (c : ascii) (rest : list ascii) :
  malformed c = true ->
  forall fuel ws dencry out,
    forallb isspace ws = true ->
    decrypt_loop fuel (mkFILE (ws ++ c :: rest) false) dencry out e n
    = Spinning (out ++ repeat (decrypted_byte e n dencry) fuel).
Proof.
  intros Hbad. induction fuel as [| fuel IH]; intros ws dencry out Hws.
  - cbn. rewrite app_nil_r. reflexivity.
  - cbn [decrypt_loop feof eof].
    rewrite gmp_fscanf_Zx_malformed by assumption.
    cbn [feof eof].
    rewrite (IH [] dencry _ eq_refl).
    unfold fputc, decrypted_byte. cbn [repeat].
    rewrite <- app_assoc. reflexivity.
Qed.

Lemma last_cons_default (v : Z) (vs : list Z) (d : Z) :
  last (v :: vs) d = last vs v.
Proof.
  revert v d. induction vs as [| w vs IH]; intros v d; [reflexivity |].
  change (last (v :: w :: vs) d) with (last (w :: vs) d).
  rewrite (IH w d), (IH w v). reflexivity.
Qed.

Lemma decrypt_loop_malformed (e n : Z) (c : ascii) (rest : list ascii) :
  malformed c = true ->
  forall vs fuel ws dencry out,
    forallb isspace ws = true ->
    Forall (fun v => 0 <= v) vs ->
    decrypt_loop fuel (mkFILE (ws ++ token_lines vs ++ c :: rest) false)
      dencry out e n
    = Spinning (out ++ firstn fuel (map (decrypted_byte e n) vs)
                    ++ repeat (decrypted_byte e n (last vs dencry))
                              (fuel - List.length vs)).
Proof.
  intros Hbad. induction vs as [| v vs IH]; intros fuel ws dencry out Hws Hpos.
  - cbn [token_lines flat_map app map List.length last].
    rewrite decrypt_loop_stuck by assumption.
    rewrite firstn_nil, Nat.sub_0_r. reflexivity.
  - destruct fuel as [| fuel]; [cbn; rewrite app_nil_r; reflexivity |].
    cbn [decrypt_loop feof eof token_lines flat_map].
    rewrite <- !app_assoc. cbn [app].
    inversion Hpos as [| v' vs' Hv Hvs]; subst.
    rewrite gmp_fscanf_Zx_line by trivial.
    cbn [feof eof].
    change (newline :: flat_map (fun v0 => format_Zx v0 ++ [newline]) vs
              ++ c :: rest)
      with ([newline] ++ token_lines vs ++ c :: rest).
    rewrite IH by trivial.
    rewrite last_cons_default.
    unfold fputc. cbn [map firstn List.length Nat.sub].
    fold (decrypted_byte e n v).
    rewrite <- !app_assoc. reflexivity.
Qed.

(** C5, what the code does.  On an encrypted file that holds N well-formed
    lines and then a character that cannot start a number (no white space, no
    sign, no hexadecimal digit), the loop of [rsa_decrypt_file] never ends:
    whatever the fuel, the function is still turning, having written the N
    decoded bytes and then, once per further turn, the byte of the last
    number read again (of 0 when N = 0).  The return value of [gmp_fscanf] is
    not tested and the indicator read by [feof] is not set by a matching
    failure.  The exponent is non-negative and the modulus is not 0, the
    operands on which [mpz_powm] returns. *)
Theorem rsa_decrypt_file_spins_on_malformed (e n : Z) (vs : list Z) (c : ascii)
  (rest : list ascii) (fuel : nat) :
  0 <= e -> n <> 0 ->
  Forall (fun v => 0 <= v) vs ->
  malformed c = true ->
  rsa_decrypt_file fuel (token_lines vs ++ c :: rest) e n
  = Spinning (firstn fuel (map (decrypted_byte e n) vs)
              ++ repeat (decrypted_byte e n (last vs 0)) (fuel - List.length vs)).
Proof.
  intros _ _ Hpos Hbad. unfold rsa_decrypt_file, fopen_r.
  exact (decrypt_loop_malformed e n c rest Hbad vs fuel [] 0 [] eq_refl Hpos).
Qed.

Lemma rsa_decrypt_file_spins_on_malformed_witness :
  rsa_decrypt_file 5
    (Script.text "41" ++ [newline] ++ Script.text "zz" ++ [newline])
    19073 (191 * 193)
  = Spinning (firstn 5 (map (decrypted_byte 19073 (191 * 193)) [65])
              ++ repeat (decrypted_byte 19073 (191 * 193) (last [65] 0))
                        (5 - List.length [65])).
Proof.
  assert (He : 0 <= 19073) by discriminate.
  assert (Hn : 191 * 193 <> 0) by discriminate.
  assert (Hpos : Forall (fun v => 0 <= v) [65])
    by (repeat constructor; discriminate).
  assert (Hbad : malformed "z"%char = true) by reflexivity.
  exact (rsa_decrypt_file_spins_on_malformed 19073 (191 * 193) [65]
           "z"%char (Script.text "z" ++ [newline]) 5 He Hn Hpos Hbad).
Defined.

(** C5 at the failing input: the file holds the line [41], then [zz].  The
    claim has the output end after the one decoded byte; after five turns the
    function has not returned and has written that byte five times. *)
Example rsa_decrypt_file_41_zz :
  rsa_decrypt_file 5
    (Script.text "41" ++ [newline] ++ Script.text "zz" ++ [newline])
    1 (191 * 193)
  = Spinning (Script.text "AAAAA").
Proof. vm_compute. reflexivity. Qed.

(** A plus sign is no malformed token: [gmp_fscanf] reads the number behind
    it, and the file is decrypted to its end. *)
Example rsa_decrypt_file_41_plus_42_43 :
  malformed plus = false
  /\ rsa_decrypt_file 5
       (Script.text "41" ++ [newline] ++ Script.text "+42" ++ [newline]
        ++ Script.text "43" ++ [newline])
       1 (191 * 193)
     = Returned 0 (Script.text "ABC").
Proof. split; vm_compute; reflexivity. Qed.

(** The other end of C5: the end of the input ends the output silently. *)
Example rsa_decrypt_file_41_42 :
  rsa_decrypt_file 5
    (Script.text "41" ++ [newline] ++ Script.text "42" ++ [newline])
    1 (191 * 193)
  = Returned 0 (Script.text "AB").
Proof. vm_compute. reflexivity. Qed.

(** * Further properties of the code *)

(** ** The primality test *)

Section PrimalityMore.

Context {H : GmpHelper}.

Lemma trials_accept_symbol_one (n : Z) :
  0 < n < 2 ^ 64 ->
  forall k t g g',
    trials k n t g = (1, g') ->
    exists g0 b,
      (b = t \/ b = (n - 1) / 2)
      /\ snd (__mpz_urandomm g0 b) = g'
      /\ mpz_jacobi (fst (__mpz_urandomm g0 b) + 2) n = 1
      /\ (fst (__mpz_urandomm g0 b) + 2) ^ ((n - 1) / 2) mod n = 1.
Proof.
  intros Hn. induction k as [| k IH]; intros t g g' Hrun;
    [discriminate |].
  cbn [trials] in Hrun. rewrite trial_unfold in Hrun.
  destruct (__mpz_urandomm g t) as [a0 g1] eqn:Hdraw. cbv zeta in Hrun.
  assert (Hexp : 0 <= (n - 1) / 2) by (apply Z.div_pos; lia).
  pose proof (mpz_powm_range (a0 + 2) ((n - 1) / 2) n Hexp ltac:(lia)) as Hr.
  assert (Hnext : forall t1,
             (t1 = t \/ t1 = (n - 1) / 2) ->
             trials k n t1 g1 = (1, g') ->
             exists g0 b,
               (b = t \/ b = (n - 1) / 2)
               /\ snd (__mpz_urandomm g0 b) = g'
               /\ mpz_jacobi (fst (__mpz_urandomm g0 b) + 2) n = 1
               /\ (fst (__mpz_urandomm g0 b) + 2) ^ ((n - 1) / 2) mod n = 1).
  { intros t1 Ht1 Hrest.
    destruct (IH t1 g1 g' Hrest) as (g0 & b & Hb & Hrest').
    exists g0, b. split; [| exact Hrest'].
    destruct Hb as [-> | ->]; [exact Ht1 | right; reflexivity]. }
  destruct (Z.eqb_spec (mpz_jacobi (a0 + 2) n) 0);
    [apply (Hnext t); [left; reflexivity | exact Hrun] |].
  destruct (Z.eqb_spec (mpz_jacobi (a0 + 2) n) 1) as [Hj |].
  - destruct (Z.eqb_spec (mpz_powm (a0 + 2) ((n - 1) / 2) n) 1) as [Hp |];
      [| apply (Hnext ((n - 1) / 2)); [right; reflexivity | exact Hrun]].
    injection Hrun as <-.
    exists g, t. rewrite Hdraw. cbn [fst snd].
    split; [left; reflexivity |]. split; [reflexivity |].
    split; [exact Hj |].
    rewrite <- mpz_powm_spec by lia. exact Hp.
  - destruct (Z.eqb_spec (mpz_powm (a0 + 2) ((n - 1) / 2) n) (2 ^ 64 - 1));
      [lia | apply (Hnext ((n - 1) / 2)); [right; reflexivity | exact Hrun]].
Qed.

Lemma trials_more_rounds (n : Z) (j : nat) :
  forall k t g g', trials k n t g = (1, g') -> trials (k + j) n t g = (1, g').
Proof.
  induction k as [| k IH]; intros t g g' Hrun; [discriminate |].
  cbn [trials Nat.add] in *.
  destruct (trial n t g) as [ret | [t' g1]]; [exact Hrun | apply IH; exact Hrun].
Qed.

End PrimalityMore.

(** X1.  Past its guards, [primality_test] says "prime" only on a trial
    whose drawn witness has the Jacobi symbol 1 and the residue 1: for an odd
    candidate between 3 and 2^64, a return value of 1 was produced by a call
    of [__mpz_urandomm], with the bound candidate - 2 or (candidate - 1) / 2,
    that left the generator in the state returned and delivered a value r
    such that a = r + 2 has the symbol 1 and a^((n - 1) / 2) mod n = 1. *)
Theorem primality_test_accepts_on_symbol_one `{H : GmpHelper}
  (n : Z) (k : N) (g g' : rng) :
  Z.odd n = true -> 2 < n < 2 ^ 64 ->
  primality_test n k g = (1, g') ->
  exists g0 b,
    (b = n - 2 \/ b = (n - 1) / 2)
    /\ snd (__mpz_urandomm g0 b) = g'
    /\ mpz_jacobi (fst (__mpz_urandomm g0 b) + 2) n = 1
    /\ (fst (__mpz_urandomm g0 b) + 2) ^ ((n - 1) / 2) mod n = 1.
Proof.
  intros Hodd Hn Hrun.
  rewrite primality_test_odd in Hrun by (trivial; lia).
  assert (Hn' : 0 < n < 2 ^ 64) by lia.
  exact (trials_accept_symbol_one n Hn' _ _ _ _ Hrun).
Qed.

Lemma primality_test_accepts_on_symbol_one_witness :
  exists (g0 : list Z) (b : Z),
    (b = 7919 - 2 \/ b = (7919 - 1) / 2)
    /\ snd (@__mpz_urandomm Script.helper g0 b) = [1; 2]
    /\ mpz_jacobi (fst (@__mpz_urandomm Script.helper g0 b) + 2) 7919 = 1
    /\ (fst (@__mpz_urandomm Script.helper g0 b) + 2) ^ ((7919 - 1) / 2)
         mod 7919 = 1.
Proof.
  assert (Hodd : Z.odd 7919 = true) by reflexivity.
  assert (Hn : 2 < 7919 < 2 ^ 64) by (split; reflexivity).
  assert (Hrun : primality_test 7919 5 [0; 1; 2] = (1, [1; 2]))
    by (vm_compute; reflexivity).
  exact (primality_test_accepts_on_symbol_one (H := Script.helper)
           7919 5 [0; 1; 2] [1; 2] Hodd Hn Hrun).
Defined.

(** X2.  An acceptance does not depend on the rounds still left: when
    [primality_test] returns 1 with [k] rounds, it returns 1, with the same
    generator state, for every larger number of rounds. *)
Theorem primality_test_more_rounds `{H : GmpHelper}
  (n : Z) (k k' : N) (g g' : rng) :
  (k <= k')%N ->
  primality_test n k g = (1, g') ->
  primality_test n k' g = (1, g').
Proof.
  intros Hk. unfold primality_test.
  destruct (c_not (mpz_cmp_ui n 1)); [trivial |].
  destruct (c_not (mpz_cmp_ui n 2)); [trivial |].
  destruct (c_not (mpz_cmp_ui (mpz_mod_ui n 2) 0)); [trivial |].
  intros Hrun.
  replace (N.to_nat k') with (N.to_nat k + (N.to_nat k' - N.to_nat k))%nat by lia.
  apply trials_more_rounds. exact Hrun.
Qed.

Lemma primality_test_more_rounds_witness :
  primality_test 7 9 [1; 0; 5] = (1, [5]).
Proof.
  assert (Hk : (2 <= 9)%N) by discriminate.
  assert (Hrun : primality_test 7 2 [1; 0; 5] = (1, [5]))
    by (vm_compute; reflexivity).
  exact (primality_test_more_rounds (H := Script.helper) 7 2 9 [1; 0; 5] [5]
           Hk Hrun).
Defined.

Section PrimalityLog.

Context {H : GmpHelper}.

Lemma trials_logged_bounds (n : Z) :
  forall k t g log r g' log',
    @trials (logged H) k n t (g, log) = (r, (g', log')) ->
    t = n - 2 \/ t = (n - 1) / 2 ->
    exists l,
      log' = log ++ l
      /\ (List.length l <= k)%nat
      /\ Forall (fun b => b = n - 2 \/ b = (n - 1) / 2) l
      /\ hd t l = t.
Proof.
  induction k as [| k IH]; intros t g log r g' log' Hrun Ht.
  - cbn in Hrun. injection Hrun as _ _ <-.
    exists []. rewrite app_nil_r. repeat split; auto.
  - cbn [trials] in Hrun. rewrite (@trial_unfold (logged H)) in Hrun.
    cbn [__mpz_urandomm logged fst snd] in Hrun.
    destruct (@__mpz_urandomm H g t) as [a0 g1]. cbv zeta in Hrun.
    assert (Hone : exists l, log ++ [t] = log ++ l
                     /\ (List.length l <= S k)%nat
                     /\ Forall (fun b => b = n - 2 \/ b = (n - 1) / 2) l
                     /\ hd t l = t).
    { exists [t]. repeat split; auto. cbn. lia. }
    assert (Hnext : forall t1,
               t1 = n - 2 \/ t1 = (n - 1) / 2 ->
               @trials (logged H) k n t1 (g1, log ++ [t]) = (r, (g', log')) ->
               exists l, log' = log ++ l
                 /\ (List.length l <= S k)%nat
                 /\ Forall (fun b => b = n - 2 \/ b = (n - 1) / 2) l
                 /\ hd t l = t).
    { intros t1 Ht1 Hrest.
      destruct (IH _ _ _ _ _ _ Hrest Ht1) as (l & -> & Hlen & Hall & _).
      exists (t :: l). rewrite <- app_assoc.
      repeat split; auto. cbn [List.length]. lia. }
    destruct (mpz_jacobi (a0 + 2) n =? 0); [apply (Hnext t); assumption |].
    destruct (_ =? _) in Hrun.
    + injection Hrun as _ _ <-. exact Hone.
    + apply (Hnext ((n - 1) / 2)); [right; reflexivity | assumption].
Qed.

End PrimalityLog.

(** X3.  What [primality_test] asks of the random source: at most one draw
    per round, the first one below candidate - 2 and every one below
    candidate - 2 or below (candidate - 1) / 2, the two values [t] can hold;
    [mpz_rand_bitlen] is never called. *)
Theorem primality_test_draws `{H : GmpHelper} (n : Z) (k : N) (g : rng) :
  let log := snd (snd (@primality_test (logged H) n k (g, []))) in
  (List.length log <= N.to_nat k)%nat
  /\ Forall (fun b => b = n - 2 \/ b = (n - 1) / 2) log
  /\ hd (n - 2) log = n - 2.
Proof.
  cbv zeta. unfold primality_test.
  destruct (c_not (mpz_cmp_ui n 1)); [cbn; auto with arith |].
  destruct (c_not (mpz_cmp_ui n 2)); [cbn; auto with arith |].
  destruct (c_not (mpz_cmp_ui (mpz_mod_ui n 2) 0)); [cbn; auto with arith |].
  unfold mpz_sub_ui.
  destruct (@trials (logged H) (N.to_nat k) n (n - 2) (g, []))
    as [r [g' log']] eqn:Hrun.
  destruct (trials_logged_bounds n _ _ _ _ _ _ _ Hrun (or_introl eq_refl))
    as (l & -> & Hlen & Hall & Hhd).
  cbn [snd app]. auto.
Qed.

(** ** The key generator *)

Lemma script_rand_bitlen_size (g : list Z) (len : Z) :
  0 < len -> mpz_sizeinbase2 (fst (Script.rand_bitlen g len)) = len.
Proof.
  intros Hlen. unfold Script.rand_bitlen.
  destruct (Script.next g) as [r g']. cbn [fst].
  assert (Hpow : 0 < 2 ^ (len - 1)) by (apply Z.pow_pos_nonneg; lia).
  pose proof (Z.mod_pos_bound r (2 ^ (len - 1)) Hpow) as Hr.
  assert (Hup : 2 ^ len = 2 * 2 ^ (len - 1)).
  { replace len with (Z.succ (len - 1)) at 1 by lia.
    apply Z.pow_succ_r. lia. }
  remember (2 ^ (len - 1) + r mod 2 ^ (len - 1)) as v eqn:Hv.
  unfold mpz_sizeinbase2.
  destruct (Z.eqb_spec v 0); [lia |].
  rewrite Z.abs_eq by lia.
  rewrite (Z.log2_unique v (len - 1)); [lia | lia |].
  replace (Z.succ (len - 1)) with len by lia. lia.
Qed.

Section KeyGeneratorMore.

Context {H : GmpHelper} {K : RsaDigestH}.

Lemma generate_loop_frame (fuel : nat) : forall n p q len m g m' g' a,
  generate_loop fuel n p q len m g = Some (m', g') ->
  a <> n -> a <> p -> a <> q -> load m' a = load m a.
Proof.
  induction fuel as [| fuel IH]; intros n p q len m g m' g' a Hrun Han Hap Haq;
    [discriminate |].
  cbn [generate_loop] in Hrun.
  destruct (mpz_rand_bitlen g (len / 2)) as [v1 g1].
  destruct (mpz_rand_bitlen g1 (len / 2)) as [v2 g2].
  destruct (c_true _) in Hrun.
  - rewrite (IH _ _ _ _ _ _ _ _ a Hrun) by assumption.
    now autorewrite with store.
  - destruct (draw_prime fuel p len _ g2) as [[m1 g3] |] eqn:Hp; [| discriminate].
    destruct (draw_prime fuel q len m1 g3) as [[m2 g4] |] eqn:Hq; [| discriminate].
    assert (Hm2 : load m2 a = load m a).
    { rewrite (draw_prime_frame _ _ _ _ _ _ _ a Hq Haq).
      rewrite (draw_prime_frame _ _ _ _ _ _ _ a Hp Hap).
      now autorewrite with store. }
    destruct (c_not _) in Hrun.
    + injection Hrun as <- <-. now autorewrite with store.
    + rewrite (IH _ _ _ _ _ _ _ _ a Hrun) by assumption.
      now autorewrite with store.
Qed.

(** What a prime loop leaves in its cell: a value [mpz_rand_bitlen] gave for
    half the length and that [primality_test] did not call composite. *)
Lemma draw_prime_post (fuel : nat) : forall p len m g m' g',
  draw_prime fuel p len m g = Some (m', g') ->
  exists g0 g1,
    load m' p = fst (mpz_rand_bitlen g0 (len / 2))
    /\ fst (primality_test (load m' p) PRIMALITY_TEST_ACCURACY g1)
       <> NUM_COMPOSITE.
Proof.
  induction fuel as [| fuel IH]; intros p len m g m' g' Hrun; [discriminate |].
  cbn [draw_prime] in Hrun.
  destruct (mpz_rand_bitlen g (len / 2)) as [v g1] eqn:Hdraw.
  rewrite load_write_same in Hrun.
  destruct (primality_test v PRIMALITY_TEST_ACCURACY g1) as [r g2] eqn:Htest.
  destruct (Z.eqb_spec r NUM_COMPOSITE) as [| Hne]; [eauto |].
  injection Hrun as <- <-. exists g, g1.
  rewrite load_write_same, Hdraw, Htest. auto.
Qed.

Lemma generate_loop_factors (fuel : nat) : forall n p q len m g m' g',
  n <> p -> n <> q -> p <> q ->
  generate_loop fuel n p q len m g = Some (m', g') ->
  (exists g0 g1,
      load m' p = fst (mpz_rand_bitlen g0 (len / 2))
      /\ fst (primality_test (load m' p) PRIMALITY_TEST_ACCURACY g1)
         <> NUM_COMPOSITE)
  /\ (exists g0 g1,
        load m' q = fst (mpz_rand_bitlen g0 (len / 2))
        /\ fst (primality_test (load m' q) PRIMALITY_TEST_ACCURACY g1)
           <> NUM_COMPOSITE).
Proof.
  induction fuel as [| fuel IH]; intros n p q len m g m' g' Hnp Hnq Hpq Hrun;
    [discriminate |].
  cbn [generate_loop] in Hrun.
  destruct (mpz_rand_bitlen g (len / 2)) as [v1 g1].
  destruct (mpz_rand_bitlen g1 (len / 2)) as [v2 g2].
  destruct (c_true _) in Hrun; [eauto |].
  destruct (draw_prime fuel p len _ g2) as [[m1 g3] |] eqn:Hp; [| discriminate].
  destruct (draw_prime fuel q len m1 g3) as [[m2 g4] |] eqn:Hq; [| discriminate].
  destruct (c_not _) in Hrun; [| eauto].
  injection Hrun as <- <-.
  rewrite !(load_write_other _ n) by auto.
  split.
  - rewrite (draw_prime_frame _ _ _ _ _ _ _ p Hq Hpq).
    exact (draw_prime_post _ _ _ _ _ _ _ Hp).
  - exact (draw_prime_post _ _ _ _ _ _ _ Hq).
Qed.

End KeyGeneratorMore.

Lemma generate_n_p_q_untouched `{H : GmpHelper} `{K : RsaDigestH}
  (fuel : nat) (n p q : addr) (len : Z) (m : store) (g : rng)
  (r : Z) (m' : store) (g' : rng) (a : addr) :
  generate_n_p_q fuel n p q len m g = Some (r, m', g') ->
  a <> n -> a <> p -> a <> q ->
  load m' a = load m a.
Proof.
  unfold generate_n_p_q. intros Hrun Han Hap Haq.
  destruct (_ || _) in Hrun; [injection Hrun as _ <- _; reflexivity |].
  destruct (c_true _) in Hrun; [injection Hrun as _ <- _; reflexivity |].
  destruct (generate_loop fuel n p q len m g) as [[m1 g1] |] eqn:Hloop;
    [| discriminate].
  injection Hrun as _ <- _.
  exact (generate_loop_frame _ _ _ _ _ _ _ _ _ a Hloop Han Hap Haq).
Qed.

Lemma generate_n_p_q_zero `{H : GmpHelper} `{K : RsaDigestH}
  (fuel : nat) (n p q : addr) (len : Z) (m : store) (g : rng)
  (r : Z) (m' : store) (g' : rng) :
  n <> NULL -> p <> NULL -> q <> NULL -> len <> 0 -> len mod 2 = 0 ->
  generate_n_p_q fuel n p q len m g = Some (r, m', g') -> r = 0.
Proof.
  intros Hn Hp Hq Hlen Heven. unfold generate_n_p_q, c_true.
  destruct (Z.eqb_spec n NULL); [contradiction |].
  destruct (Z.eqb_spec p NULL); [contradiction |].
  destruct (Z.eqb_spec q NULL); [contradiction |].
  destruct (Z.eqb_spec len 0); [contradiction |].
  rewrite Heven. cbn [orb negb Z.eqb].
  destruct (generate_loop fuel n p q len m g) as [[m1 g1] |]; [| discriminate].
  intros [= <- _ _]. reflexivity.
Qed.

(** X4.  [generate_n_p_q] writes the three numbers it is handed and nothing
    else: whatever it returns, every other cell of the store is as before. *)
Theorem generate_n_p_q_frame `{H : GmpHelper} `{K : RsaDigestH}
  (fuel : nat) (n p q : addr) (len : Z) (m : store) (g : rng)
  (r : Z) (m' : store) (g' : rng) (a : addr) :
  generate_n_p_q fuel n p q len m g = Some (r, m', g') ->
  a <> n -> a <> p -> a <> q ->
  load m' a = load m a.
Proof. apply generate_n_p_q_untouched. Qed.

Lemma generate_n_p_q_frame_witness :
  let m := write Script.zeroed 104 77 in
  let m' := store_after
              (generate_n_p_q 5 101 102 103 16 m [63; 65; 63; 0; 65; 0]) m in
  load m' 104 = load m 104.
Proof.
  intros m m'.
  assert (Hrun : generate_n_p_q 5 101 102 103 16 m [63; 65; 63; 0; 65; 0]
                 = Some (0, m', [])) by (vm_compute; reflexivity).
  assert (Han : 104 <> 101) by discriminate.
  assert (Hap : 104 <> 102) by discriminate.
  assert (Haq : 104 <> 103) by discriminate.
  exact (generate_n_p_q_frame (H := Script.helper) 5 101 102 103 16 m
           [63; 65; 63; 0; 65; 0] 0 m' [] 104 Hrun Han Hap Haq).
Defined.

(** X5.  [generate_n_p_q] returns 0 or [-EINVAL].  It returns [-EINVAL],
    without a draw, exactly for a null argument or a length that is zero or
    odd; a return value of 0 means three non-null arguments and an even,
    non-zero length. *)
Theorem generate_n_p_q_return `{H : GmpHelper} `{K : RsaDigestH}
  (fuel : nat) (n p q : addr) (len : Z) (m : store) (g : rng)
  (r : Z) (m' : store) (g' : rng) :
  generate_n_p_q fuel n p q len m g = Some (r, m', g') ->
  (r = - EINVAL /\ m' = m /\ g' = g
   /\ (n = NULL \/ p = NULL \/ q = NULL \/ len = 0 \/ len mod 2 <> 0))
  \/ (r = 0 /\ n <> NULL /\ p <> NULL /\ q <> NULL /\ len <> 0 /\ len mod 2 = 0).
Proof.
  unfold generate_n_p_q, c_true. intros Hrun.
  destruct (Z.eqb_spec n NULL); [injection Hrun as <- <- <-; left; repeat split; tauto |].
  destruct (Z.eqb_spec p NULL); [injection Hrun as <- <- <-; left; repeat split; tauto |].
  destruct (Z.eqb_spec q NULL); [injection Hrun as <- <- <-; left; repeat split; tauto |].
  destruct (Z.eqb_spec len 0); [injection Hrun as <- <- <-; left; repeat split; tauto |].
  cbn [orb] in Hrun.
  destruct (Z.eqb_spec (len mod 2) 0);
    [| injection Hrun as <- <- <-; left; repeat split; tauto].
  cbn [negb] in Hrun.
  destruct (generate_loop fuel n p q len m g) as [[m1 g1] |]; [| discriminate].
  injection Hrun as <- _ _. right. repeat split; assumption.
Qed.

Lemma generate_n_p_q_return_witness :
  (- EINVAL = - EINVAL /\ Script.zeroed = Script.zeroed /\ [4; 5] = [4; 5]
   /\ (101 = NULL \/ 0 = NULL \/ 103 = NULL \/ 16 = 0 \/ 16 mod 2 <> 0))
  \/ (- EINVAL = 0 /\ 101 <> NULL /\ 0 <> NULL /\ 103 <> NULL /\ 16 <> 0
      /\ 16 mod 2 = 0).
Proof.
  assert (Hrun : generate_n_p_q 5 101 0 103 16 Script.zeroed [4; 5]
                 = Some (- EINVAL, Script.zeroed, [4; 5])) by reflexivity.
  exact (generate_n_p_q_return (H := Script.helper) 5 101 0 103 16
           Script.zeroed [4; 5] (- EINVAL) Script.zeroed [4; 5] Hrun).
Defined.

(** X6.  The two factors [generate_n_p_q] leaves behind on success are values
    that came out of [mpz_rand_bitlen] for half the length and that
    [primality_test] accepted.  So wherever [mpz_rand_bitlen] delivers the
    number of bits it is asked for, p and q have exactly len / 2 bits each.
    (The three numbers are three objects.) *)
Theorem generate_n_p_q_factors `{H : GmpHelper} `{K : RsaDigestH}
  (fuel : nat) (n p q : addr) (len : Z) (m : store) (g : rng)
  (m' : store) (g' : rng) :
  n <> p -> n <> q -> p <> q ->
  (forall g0, mpz_sizeinbase2 (fst (mpz_rand_bitlen g0 (len / 2))) = len / 2) ->
  generate_n_p_q fuel n p q len m g = Some (0, m', g') ->
  (mpz_sizeinbase2 (load m' p) = len / 2
   /\ exists g1, fst (primality_test (load m' p) PRIMALITY_TEST_ACCURACY g1)
                 <> NUM_COMPOSITE)
  /\ (mpz_sizeinbase2 (load m' q) = len / 2
      /\ exists g1, fst (primality_test (load m' q) PRIMALITY_TEST_ACCURACY g1)
                    <> NUM_COMPOSITE).
Proof.
  intros Hnp Hnq Hpq Hsize Hrun. unfold generate_n_p_q in Hrun.
  destruct (_ || _) in Hrun; [discriminate |].
  destruct (c_true _) in Hrun; [discriminate |].
  destruct (generate_loop fuel n p q len m g) as [[m1 g1] |] eqn:Hloop;
    [| discriminate].
  injection Hrun as <- <-.
  destruct (generate_loop_factors _ _ _ _ _ _ _ _ _ Hnp Hnq Hpq Hloop)
    as [(gp0 & gp1 & Hp & Hpt) (gq0 & gq1 & Hq & Hqt)].
  split; (split; [| eauto]).
  - rewrite Hp. apply Hsize.
  - rewrite Hq. apply Hsize.
Qed.

Lemma generate_n_p_q_factors_witness :
  let m' := store_after
              (generate_n_p_q 5 101 102 103 16 Script.zeroed
                 [63; 65; 63; 0; 65; 0]) Script.zeroed in
  mpz_sizeinbase2 (load m' 102) = 16 / 2
  /\ mpz_sizeinbase2 (load m' 103) = 16 / 2.
Proof.
  intros m'.
  assert (Hrun : generate_n_p_q 5 101 102 103 16 Script.zeroed
                   [63; 65; 63; 0; 65; 0] = Some (0, m', []))
    by (vm_compute; reflexivity).
  assert (Hsize : forall g0 : list Z,
             mpz_sizeinbase2 (fst (Script.rand_bitlen g0 (16 / 2))) = 16 / 2)
    by (intros g0; apply script_rand_bitlen_size; reflexivity).
  assert (Hnp : 101 <> 102) by discriminate.
  assert (Hnq : 101 <> 103) by discriminate.
  assert (Hpq : 102 <> 103) by discriminate.
  pose proof (generate_n_p_q_factors (H := Script.helper) 5 101 102 103 16
                Script.zeroed [63; 65; 63; 0; 65; 0] m' []
                Hnp Hnq Hpq Hsize Hrun) as [[Hp _] [Hq _]].
  split; assumption.
Defined.

Lemma prime_check_sqrt_sound (p : Z) : prime_check_sqrt p = true -> Z.prime p.
Proof.
  unfold prime_check_sqrt. rewrite andb_true_iff, forallb_forall.
  intros [Hp Hall]. apply Z.ltb_lt in Hp.
  split; [exact Hp |].
  intros n Hn [k Hk].
  assert (Hk1 : 1 < k < p) by nia.
  assert (Hsmall : exists d, 1 < d /\ d * d <= p /\ (d | p)).
  { destruct (Z.le_ge_cases n k).
    - exists n. repeat split; [lia | nia | exists k; exact Hk].
    - exists k. repeat split; [lia | nia | exists n; lia]. }
  destruct Hsmall as (d & Hd1 & Hdd & Hdiv).
  apply Z.sqrt_le_square in Hdd; [| lia | lia].
  specialize (Hall (Z.to_nat d)).
  rewrite Z2Nat.id, negb_true_iff, Z.eqb_neq in Hall by lia.
  apply Hall.
  - apply in_seq. lia.
  - apply Z.mod_divide; [lia | exact Hdiv].
Qed.

Lemma prime_65537 : Z.prime 65537.
Proof. apply prime_check_sqrt_sound. vm_compute. reflexivity. Qed.

Lemma gcd_65537 (p q : Z) :
  Z.gcd 65537 ((p - 1) * (q - 1)) = 1
  <-> ~ (p mod 65537 = 1 \/ q mod 65537 = 1).
Proof.
  change (Z.gcd 65537 ((p - 1) * (q - 1)) = 1)
    with (Z.coprime 65537 ((p - 1) * (q - 1))).
  rewrite (Z.coprime_prime_l_iff _ _ prime_65537).
  rewrite (Z.divide_prime_mul _ _ _ prime_65537).
  rewrite <- !Z.mod_divide by discriminate.
  assert (Hm : forall x, (x - 1) mod 65537 = 0 <-> x mod 65537 = 1).
  { intros x. split; intros Hx.
    - replace x with (x - 1 + 1) by lia.
      rewrite Z.add_mod, Hx by discriminate. reflexivity.
    - rewrite Zminus_mod, Hx. reflexivity. }
  rewrite !Hm. reflexivity.
Qed.

(** X7.  When [e] and [d] are not null, [generate_e_d] returns 0 or [-EFAULT],
    and [-EFAULT] exactly when p or q is 1 modulo 65537 (the only way the gcd
    of 65537 and (p - 1) (q - 1) is not 1).  In that case [e] already holds
    65537, one line is on [stderr] and every other cell, [d] included, is as
    before. *)
Theorem generate_e_d_efault (e d p q : addr) (m : store) :
  e <> NULL -> d <> NULL ->
  let run := generate_e_d e d p q m in
  let failed := load m p mod 65537 = 1 \/ load m q mod 65537 = 1 in
  (failed -> fst (fst run) = - EFAULT
             /\ load (snd (fst run)) e = 65537
             /\ (forall a, a <> e -> load (snd (fst run)) a = load m a)
             /\ snd run = ["gcd() (e, phi) failed!"%string])
  /\ (~ failed -> fst (fst run) = 0).
Proof.
  intros He Hd. cbv zeta.
  unfold generate_e_d, mpz_sub_ui, mpz_mul, mpz_gcd, mpz_cmp_ui.
  destruct (Z.eqb_spec e NULL); [contradiction |].
  destruct (Z.eqb_spec d NULL); [contradiction |].
  cbn [orb]. rewrite load_write_same, c_true_mpz_cmp.
  pose proof (gcd_65537 (load m p) (load m q)) as Hgcd.
  destruct (Z.eqb_spec (Z.gcd 65537 ((load m p - 1) * (load m q - 1))) 1)
    as [Hone | Hnot]; cbn [negb].
  - split; [intros Hf; apply Hgcd in Hone; contradiction |].
    intros _. destruct (c_true _); reflexivity.
  - split; [| intros Hf; apply Hgcd in Hf; contradiction].
    intros _. cbn [fst snd]. repeat split.
    + apply load_write_same.
    + intros a Ha. apply load_write_other. exact Ha.
Qed.

Lemma generate_e_d_efault_witness :
  let m := write (write Script.zeroed 102 917519) 103 191 in
  fst (fst (generate_e_d 104 105 102 103 m)) = - EFAULT
  /\ fst (fst (generate_e_d 104 105 103 103 m)) = 0.
Proof.
  intros m.
  assert (He : 104 <> NULL) by discriminate.
  assert (Hd : 105 <> NULL) by discriminate.
  pose proof (generate_e_d_efault 104 105 102 103 m He Hd) as [Hfail _].
  pose proof (generate_e_d_efault 104 105 103 103 m He Hd) as [_ Hok].
  split.
  - apply Hfail. left. reflexivity.
  - apply Hok. intros [Hp | Hq]; discriminate.
Defined.

Lemma generate_e_d_reduced (e d p q : addr) (m m' : store) (err : list string) :
  generate_e_d e d p q m = (0, m', err) ->
  0 <= load m' d < Z.abs ((load m p - 1) * (load m q - 1)).
Proof.
  unfold generate_e_d, mpz_sub_ui, mpz_mul, mpz_gcd, mpz_cmp_ui, mpz_invert.
  destruct ((e =? NULL) || (d =? NULL)); [discriminate |].
  rewrite load_write_same, c_true_mpz_cmp.
  set (phi := (load m p - 1) * (load m q - 1)).
  destruct (Z.eqb_spec (Z.gcd 65537 phi) 1) as [Hgcd |]; [| discriminate].
  cbn [negb snd]. intros Hrun.
  assert (Hm' : load m' d = Z.invmod 65537 (Z.abs phi)).
  { destruct (c_true _) in Hrun; injection Hrun as <- _;
      apply load_write_same. }
  rewrite Hm', <- Z.mod_invmod.
  apply Z.mod_pos_bound.
  assert (phi <> 0) by (intros Hz; rewrite Hz in Hgcd; discriminate).
  lia.
Qed.

(** X8.  The exponent [generate_e_d] derives is reduced modulo
    (p - 1) (q - 1): after a return value of 0, 0 <= d < |(p - 1) (q - 1)|. *)
Theorem generate_e_d_range (e d p q : addr) (m m' : store) (err : list string) :
  generate_e_d e d p q m = (0, m', err) ->
  0 <= load m' d < Z.abs ((load m p - 1) * (load m q - 1)).
Proof. apply generate_e_d_reduced. Qed.

Lemma generate_e_d_range_witness :
  let m := write (write Script.zeroed 102 191) 103 193 in
  let m' := snd (fst (generate_e_d 104 105 102 103 m)) in
  0 <= load m' 105 < Z.abs ((load m 102 - 1) * (load m 103 - 1)).
Proof.
  intros m m'.
  assert (Hrun : generate_e_d 104 105 102 103 m = (0, m', []))
    by (vm_compute; reflexivity).
  exact (generate_e_d_range 104 105 102 103 m m' [] Hrun).
Defined.

Section GenerateKeyMore.

Context {H : GmpHelper} {K : RsaDigestH}.

(** The three ways [generate_key] comes back for a key that is not null. *)
Lemma generate_key_inversion (fuel : nat) (k : rsa_key.t) (len : Z)
  (m : store) (g : rng) (r : Z) (m' : store) (g' : rng) (err : list string) :
  generate_key fuel (Some k) len m g = Some (r, m', g', err) ->
  exists r1 m1,
    generate_n_p_q fuel (rsa_key.n k) (rsa_key.p k) (rsa_key.q k) len
      (write m (rsa_key.key_len k) len) g = Some (r1, m1, g')
    /\ ((r1 <> 0 /\ r = - EFAULT /\ m' = m1
         /\ err = ["failed to generate N, P, Q factors"%string])
        \/ (r1 = 0
            /\ exists r2 err2,
                generate_e_d (rsa_key.e k) (rsa_key.d k)
                  (rsa_key.p k) (rsa_key.q k) m1 = (r2, m', err2)
                /\ ((r2 <> 0 /\ r = - EFAULT
                     /\ err = err2 ++ ["failed to generate E, Q factors"%string])
                    \/ (r2 = 0 /\ r = 0 /\ err = err2)))).
Proof.
  unfold generate_key. intros Hrun.
  destruct (generate_n_p_q fuel _ _ _ len _ g) as [[[r1 m1] g1] |]; [| discriminate].
  exists r1, m1. unfold c_true in Hrun.
  destruct (Z.eqb_spec r1 0) as [-> | Hr1]; cbn [negb] in Hrun.
  - destruct (generate_e_d _ _ _ _ m1) as [[r2 m2] err2].
    destruct (Z.eqb_spec r2 0) as [-> | Hr2]; cbn [negb] in Hrun;
      injection Hrun as <- <- <- <-; (split; [reflexivity |]); right;
      (split; [reflexivity |]); exists r2, err2 || exists 0, err2; auto.
  - injection Hrun as <- <- <- <-. split; [reflexivity |]. left. auto.
Qed.

(** How [generate_e_d] fails once its two pointers are not null. *)
Lemma generate_e_d_failure (e d p q : addr) (m m' : store) (r : Z)
  (err : list string) :
  e <> NULL -> d <> NULL ->
  generate_e_d e d p q m = (r, m', err) -> r <> 0 ->
  r = - EFAULT
  /\ load m' e = 65537
  /\ (forall a, a <> e -> load m' a = load m a)
  /\ err = ["gcd() (e, phi) failed!"%string]
  /\ Z.gcd 65537 ((load m p - 1) * (load m q - 1)) <> 1.
Proof.
  intros He Hd. unfold generate_e_d, mpz_sub_ui, mpz_mul, mpz_gcd, mpz_cmp_ui.
  destruct (Z.eqb_spec e NULL); [contradiction |].
  destruct (Z.eqb_spec d NULL); [contradiction |].
  cbn [orb]. rewrite load_write_same, c_true_mpz_cmp.
  destruct (Z.eqb_spec (Z.gcd 65537 ((load m p - 1) * (load m q - 1))) 1)
    as [Hone | Hnot]; cbn [negb].
  - destruct (c_true _); intros [= <- _ _] Hr; contradiction.
  - intros [= <- <- <-] _. repeat split; trivial.
    + apply load_write_same.
    + intros a Ha. apply load_write_other. exact Ha.
Qed.

End GenerateKeyMore.

(** X9.  The invariants of a generated key.  When [generate_key] returns 0
    and the two factors it left in the key are prime, the key holds
    n = p * q on exactly [len_key] bits, [key_len = len_key], e = 65537 and a
    d with e * d mod (p - 1) (q - 1) = 1, and nothing was written to
    [stderr]. *)
Theorem generate_key_invariants `{H : GmpHelper} `{K : RsaDigestH}
  (fuel : nat) (k : rsa_key.t) (len : Z) (m : store) (g : rng)
  (m' : store) (g' : rng) (err : list string) :
  valid_members (rsa_key.members k) = true ->
  generate_key fuel (Some k) len m g = Some (0, m', g', err) ->
  Z.prime (load m' (rsa_key.p k)) -> Z.prime (load m' (rsa_key.q k)) ->
  load m' (rsa_key.n k) = load m' (rsa_key.p k) * load m' (rsa_key.q k)
  /\ mpz_sizeinbase2 (load m' (rsa_key.n k)) = len
  /\ load m' (rsa_key.key_len k) = len
  /\ load m' (rsa_key.e k) = 65537
  /\ (load m' (rsa_key.e k) * load m' (rsa_key.d k))
       mod ((load m' (rsa_key.p k) - 1) * (load m' (rsa_key.q k) - 1)) = 1
  /\ err = [].
Proof.
  intros Hvalid Hrun Hp Hq.
  destruct (generate_key_exponents fuel k len m g m' g' err Hvalid Hrun Hp Hq)
    as (He & Hinv & Herr).
  destruct (generate_key_inversion _ _ _ _ _ _ _ _ _ Hrun)
    as (r1 & m1 & Hnpq & [(_ & Hbad & _) | (-> & r2 & err2 & Hed & Hcase)]);
    [discriminate |].
  destruct k as [kn kp kq ke kd kl].
  cbn [rsa_key.n rsa_key.p rsa_key.q rsa_key.e rsa_key.d rsa_key.key_len] in *.
  addr_facts Hvalid.
  assert (Hnp : kn <> kp) by assumption.
  assert (Hnq : kn <> kq) by assumption.
  pose proof (generate_n_p_q_post _ _ _ _ _ _ _ _ _ Hnp Hnq Hnpq) as [Hn Hbits].
  assert (Hkl : load m1 kl = len).
  { rewrite (generate_n_p_q_untouched _ _ _ _ _ _ _ _ _ _ kl Hnpq) by auto.
    apply load_write_same. }
  assert (Hpm : load m' kp = load m1 kp)
    by (apply (generate_e_d_frame _ _ _ _ _ _ _ _ _ Hed); auto).
  assert (Hqm : load m' kq = load m1 kq)
    by (apply (generate_e_d_frame _ _ _ _ _ _ _ _ _ Hed); auto).
  assert (Hnm : load m' kn = load m1 kn)
    by (apply (generate_e_d_frame _ _ _ _ _ _ _ _ _ Hed); auto).
  assert (Hlm : load m' kl = load m1 kl)
    by (apply (generate_e_d_frame _ _ _ _ _ _ _ _ _ Hed); auto).
  rewrite Hnm, Hpm, Hqm, Hlm in *.
  repeat split; assumption.
Qed.

Lemma generate_key_invariants_witness :
  let m' := Script.store_of
              (generate_key 5 (Some Script.key) 16 Script.zeroed
                 [63; 65; 63; 0; 65; 0]) in
  load m' 101 = load m' 102 * load m' 103
  /\ mpz_sizeinbase2 (load m' 101) = 16
  /\ load m' 106 = 16
  /\ load m' 104 = 65537
  /\ (load m' 104 * load m' 105) mod ((load m' 102 - 1) * (load m' 103 - 1)) = 1
  /\ @nil string = [].
Proof.
  intros m'.
  assert (Hrun : generate_key 5 (Some Script.key) 16 Script.zeroed
                   [63; 65; 63; 0; 65; 0] = Some (0, m', [], []))
    by (vm_compute; reflexivity).
  assert (Hvalid : valid_members (rsa_key.members Script.key) = true)
    by reflexivity.
  assert (Hp : Z.prime (load m' (rsa_key.p Script.key)))
    by (apply prime_check_sound; vm_compute; reflexivity).
  assert (Hq : Z.prime (load m' (rsa_key.q Script.key)))
    by (apply prime_check_sound; vm_compute; reflexivity).
  exact (generate_key_invariants (H := Script.helper) 5 Script.key 16
           Script.zeroed [63; 65; 63; 0; 65; 0] m' [] [] Hvalid Hrun Hp Hq).
Defined.

(** X10.  [generate_key] on a key that is not null returns 0 or [-EFAULT],
    has [len_key] in [key_len] whatever it returns, and writes nothing outside
    the six members of the key. *)
Theorem generate_key_return `{H : GmpHelper} `{K : RsaDigestH}
  (fuel : nat) (k : rsa_key.t) (len : Z) (m : store) (g : rng)
  (r : Z) (m' : store) (g' : rng) (err : list string) :
  valid_members (rsa_key.members k) = true ->
  generate_key fuel (Some k) len m g = Some (r, m', g', err) ->
  (r = 0 \/ r = - EFAULT)
  /\ load m' (rsa_key.key_len k) = len
  /\ forall a, ~ In a (rsa_key.members k) -> load m' a = load m a.
Proof.
  intros Hvalid Hrun.
  destruct (generate_key_inversion _ _ _ _ _ _ _ _ _ Hrun)
    as (r1 & m1 & Hnpq & Hcase).
  destruct k as [kn kp kq ke kd kl].
  cbn [rsa_key.n rsa_key.p rsa_key.q rsa_key.e rsa_key.d rsa_key.key_len] in *.
  addr_facts Hvalid.
  assert (Hkl : load m1 kl = len).
  { rewrite (generate_n_p_q_untouched _ _ _ _ _ _ _ _ _ _ kl Hnpq) by auto.
    apply load_write_same. }
  assert (Hout : forall a,
             ~ In a (rsa_key.members (rsa_key.mk kn kp kq ke kd kl)) ->
             load m1 a = load m a
             /\ a <> ke /\ a <> kd).
  { intros a Ha. unfold rsa_key.members in Ha.
    cbn [In rsa_key.n rsa_key.p rsa_key.q rsa_key.e rsa_key.d rsa_key.key_len] in Ha.
    assert (a <> kn /\ a <> kp /\ a <> kq /\ a <> ke /\ a <> kd /\ a <> kl)
      as (? & ? & ? & ? & ? & ?) by (repeat split; intros ->; tauto).
    rewrite (generate_n_p_q_untouched _ _ _ _ _ _ _ _ _ _ a Hnpq) by auto.
    rewrite load_write_other by auto. auto. }
  destruct Hcase as [(_ & -> & -> & _) | (-> & r2 & err2 & Hed & Hcase)].
  - split; [right; reflexivity |]. split; [exact Hkl |].
    intros a Ha. apply Hout. exact Ha.
  - split; [destruct Hcase as [(_ & -> & _) | (_ & -> & _)]; auto |].
    split.
    + rewrite (generate_e_d_frame _ _ _ _ _ _ _ _ _ Hed) by auto. exact Hkl.
    + intros a Ha. destruct (Hout a Ha) as (Hm1 & Hae & Had).
      rewrite (generate_e_d_frame _ _ _ _ _ _ _ _ _ Hed) by auto. exact Hm1.
Qed.

Lemma generate_key_return_witness :
  let m := write Script.zeroed 500 42 in
  let m' := Script.store_of
              (generate_key 5 (Some Script.key) 16 m [63; 65; 63; 0; 65; 0]) in
  (0 = 0 \/ 0 = - EFAULT) /\ load m' 106 = 16 /\ load m' 500 = load m 500.
Proof.
  intros m m'.
  assert (Hrun : generate_key 5 (Some Script.key) 16 m
                   [63; 65; 63; 0; 65; 0] = Some (0, m', [], []))
    by (vm_compute; reflexivity).
  assert (Hvalid : valid_members (rsa_key.members Script.key) = true)
    by reflexivity.
  pose proof (generate_key_return (H := Script.helper) 5 Script.key 16 m
                [63; 65; 63; 0; 65; 0] 0 m' [] [] Hvalid Hrun)
    as (Hr & Hkl & Hframe).
  split; [exact Hr |]. split; [exact Hkl |].
  apply Hframe. cbn. intros Hin.
  repeat (destruct Hin as [Hin | Hin]; [discriminate |]). exact Hin.
Defined.

(** X11.  A key is not rolled back when the exponents cannot be derived.  For
    an even, non-zero length a failure of [generate_key] comes from
    [generate_e_d]: p or q is 1 modulo 65537, [-EFAULT] is returned with two
    lines on [stderr], and the key keeps the new modulus n = p * q of
    [len_key] bits with e = 65537 next to the d it had before the call. *)
Theorem generate_key_half_written `{H : GmpHelper} `{K : RsaDigestH}
  (fuel : nat) (k : rsa_key.t) (len : Z) (m : store) (g : rng)
  (r : Z) (m' : store) (g' : rng) (err : list string) :
  valid_members (rsa_key.members k) = true ->
  len <> 0 -> len mod 2 = 0 ->
  generate_key fuel (Some k) len m g = Some (r, m', g', err) ->
  r <> 0 ->
  r = - EFAULT
  /\ load m' (rsa_key.n k) = load m' (rsa_key.p k) * load m' (rsa_key.q k)
  /\ mpz_sizeinbase2 (load m' (rsa_key.n k)) = len
  /\ load m' (rsa_key.e k) = 65537
  /\ load m' (rsa_key.d k) = load m (rsa_key.d k)
  /\ (load m' (rsa_key.p k) mod 65537 = 1 \/ load m' (rsa_key.q k) mod 65537 = 1)
  /\ err = ["gcd() (e, phi) failed!"%string;
            "failed to generate E, Q factors"%string].
Proof.
  intros Hvalid Hlen Heven Hrun Hr.
  destruct (generate_key_inversion _ _ _ _ _ _ _ _ _ Hrun)
    as (r1 & m1 & Hnpq & Hcase).
  destruct k as [kn kp kq ke kd kl].
  cbn [rsa_key.n rsa_key.p rsa_key.q rsa_key.e rsa_key.d rsa_key.key_len] in *.
  addr_facts Hvalid.
  assert (Hkn : kn <> NULL) by assumption.
  assert (Hkp : kp <> NULL) by assumption.
  assert (Hkq : kq <> NULL) by assumption.
  assert (Hke : ke <> NULL) by assumption.
  assert (Hkd : kd <> NULL) by assumption.
  assert (Hnp : kn <> kp) by assumption.
  assert (Hnq : kn <> kq) by assumption.
  pose proof (generate_n_p_q_zero _ _ _ _ _ _ _ _ _ _ Hkn Hkp Hkq Hlen Heven Hnpq)
    as Hr1.
  destruct Hcase as [(Hbad & _) | (_ & r2 & err2 & Hed & Hcase)];
    [contradiction |].
  destruct Hcase as [(Hr2 & -> & ->) | (_ & -> & _)]; [| contradiction].
  subst r1.
  destruct (generate_e_d_failure _ _ _ _ _ _ _ _ Hke Hkd Hed Hr2)
    as (_ & He & Hframe & -> & Hgcd).
  pose proof (generate_n_p_q_post _ _ _ _ _ _ _ _ _ Hnp Hnq Hnpq) as [Hn Hbits].
  assert (Hd : load m1 kd = load m kd).
  { rewrite (generate_n_p_q_untouched _ _ _ _ _ _ _ _ _ _ kd Hnpq) by auto.
    apply load_write_other. auto. }
  rewrite !(Hframe kn), !(Hframe kp), !(Hframe kq), (Hframe kd) by auto.
  repeat split; trivial.
  destruct (Z.eq_dec (load m1 kp mod 65537) 1) as [| Hp1]; [left; assumption |].
  destruct (Z.eq_dec (load m1 kq mod 65537) 1) as [| Hq1]; [right; assumption |].
  exfalso. apply Hgcd. apply gcd_65537. tauto.
Qed.

Lemma generate_key_half_written_witness :
  let script := [393231; 393231; 393231; 0; 393231; 0] in
  let m := write Script.zeroed 105 7 in
  let m' := Script.store_of (generate_key 5 (Some Script.key) 40 m script) in
  - EFAULT = - EFAULT
  /\ load m' 101 = load m' 102 * load m' 103
  /\ mpz_sizeinbase2 (load m' 101) = 40
  /\ load m' 104 = 65537
  /\ load m' 105 = load m 105
  /\ (load m' 102 mod 65537 = 1 \/ load m' 103 mod 65537 = 1)
  /\ ["gcd() (e, phi) failed!"%string; "failed to generate E, Q factors"%string]
     = ["gcd() (e, phi) failed!"%string; "failed to generate E, Q factors"%string].
Proof.
  intros script m m'.
  assert (Hrun : generate_key 5 (Some Script.key) 40 m script
                 = Some (- EFAULT, m', [],
                         ["gcd() (e, phi) failed!"%string;
                          "failed to generate E, Q factors"%string]))
    by (vm_compute; reflexivity).
  assert (Hvalid : valid_members (rsa_key.members Script.key) = true)
    by reflexivity.
  assert (Hlen : 40 <> 0) by discriminate.
  assert (Heven : 40 mod 2 = 0) by reflexivity.
  assert (Hr : - EFAULT <> 0) by discriminate.
  exact (generate_key_half_written (H := Script.helper) 5 Script.key 40 m
           script (- EFAULT) m' [] _ Hvalid Hlen Heven Hrun Hr).
Defined.

(** ** Initialisation and projections *)

(** X12.  The three initialisers return [-EINVAL] for a null struct and 0
    otherwise, give every number of their struct the value 0 and write nothing
    else ([key_len] keeps what it held).  A key that has only been
    initialised is accepted by the public projection, which returns 0 and
    hands on the zeros. *)
Theorem key_init_zero (key : rsa_key.t) (pub : rsa_public.t)
  (priv : rsa_private.t) (m : store) :
  valid_members (rsa_key.members key) = true ->
  valid_members (rsa_public.members pub) = true ->
  valid_members (rsa_private.members priv) = true ->
  disjoint (rsa_public.members pub) (rsa_key.members key) = true ->
  (rsa_key_init None m = (- EINVAL, m)
   /\ fst (rsa_key_init (Some key) m) = 0
   /\ let m0 := snd (rsa_key_init (Some key) m) in
      map (load m0) [rsa_key.n key; rsa_key.p key; rsa_key.q key;
                     rsa_key.e key; rsa_key.d key] = [0; 0; 0; 0; 0]
      /\ (forall a, ~ In a [rsa_key.n key; rsa_key.p key; rsa_key.q key;
                            rsa_key.e key; rsa_key.d key] ->
                    load m0 a = load m a)
      /\ fst (generate_public_key (Some key) pub m0) = 0
      /\ map (load (snd (generate_public_key (Some key) pub m0)))
           [rsa_public.n pub; rsa_public.d pub] = [0; 0])
  /\ (rsa_public_key_init None m = (- EINVAL, m)
      /\ fst (rsa_public_key_init (Some pub) m) = 0
      /\ let m0 := snd (rsa_public_key_init (Some pub) m) in
         map (load m0) [rsa_public.n pub; rsa_public.d pub] = [0; 0]
         /\ forall a, ~ In a [rsa_public.n pub; rsa_public.d pub] ->
                      load m0 a = load m a)
  /\ (rsa_private_key_init None m = (- EINVAL, m)
      /\ fst (rsa_private_key_init (Some priv) m) = 0
      /\ let m0 := snd (rsa_private_key_init (Some priv) m) in
         map (load m0) [rsa_private.n priv; rsa_private.e priv] = [0; 0]
         /\ forall a, ~ In a [rsa_private.n priv; rsa_private.e priv] ->
                      load m0 a = load m a).
Proof.
  intros Hkey Hpub Hpriv Hdpub.
  destruct key as [kn kp kq ke kd kl], pub as [un ud ul], priv as [vn ve vl].
  addr_facts Hkey. addr_facts Hpub. addr_facts Hpriv. addr_facts Hdpub.
  unfold rsa_key_init, rsa_public_key_init, rsa_private_key_init,
    generate_public_key, mpz_set.
  cbn [rsa_key.n rsa_key.p rsa_key.q rsa_key.e rsa_key.d rsa_key.key_len
       rsa_public.n rsa_public.d rsa_public.key_len
       rsa_private.n rsa_private.e rsa_private.key_len fst snd].
  unfold NULL.
  destruct (Z.eqb_spec kn 0); [contradiction |].
  destruct (Z.eqb_spec kd 0); [contradiction |].
  cbn [orb fst snd map].
  split; [| split]; (split; [reflexivity |]); (split; [reflexivity |]).
  - split; [now autorewrite with store |].
    split; [| split; [reflexivity | now autorewrite with store]].
    intros a Ha. cbn [In] in Ha.
    assert (a <> kn /\ a <> kp /\ a <> kq /\ a <> ke /\ a <> kd)
      as (? & ? & ? & ? & ?) by (repeat split; intros ->; tauto).
    now autorewrite with store.
  - split; [now autorewrite with store |].
    intros a Ha. cbn [In] in Ha.
    assert (a <> un /\ a <> ud) as (? & ?) by (repeat split; intros ->; tauto).
    now autorewrite with store.
  - split; [now autorewrite with store |].
    intros a Ha. cbn [In] in Ha.
    assert (a <> vn /\ a <> ve) as (? & ?) by (repeat split; intros ->; tauto).
    now autorewrite with store.
Qed.

Lemma key_init_zero_witness :
  let m := write (write Script.zeroed 101 36863) 106 16 in
  let m0 := snd (rsa_key_init (Some Script.key) m) in
  load m0 101 = 0 /\ load m0 106 = 16
  /\ fst (generate_public_key (Some Script.key) Script.pub m0) = 0.
Proof.
  intros m m0.
  pose proof (key_init_zero Script.key Script.pub Script.priv m
                eq_refl eq_refl eq_refl eq_refl)
    as [(_ & _ & Hzero & Hframe & Hret & _) _].
  split; [| split].
  - exact (f_equal (fun l => hd 1 l) Hzero).
  - apply (Hframe 106). cbn. intros Hin.
    repeat (destruct Hin as [Hin | Hin]; [discriminate |]). exact Hin.
  - exact Hret.
Defined.

(** ** From the generated key to the files *)

(** X13.  The whole path.  For a key that [generate_key] returned with 0 and
    whose factors are two distinct primes with n > 255: both projections
    return 0; a file encrypted with the numbers of the public projection
    (n and the derived d) is decrypted to the original bytes with the numbers
    of the private projection (n and 65537), and the other way round. *)
Theorem generated_key_round_trip `{H : GmpHelper} `{K : RsaDigestH}
  (fuel : nat) (k : rsa_key.t) (pub : rsa_public.t) (priv : rsa_private.t)
  (len : Z) (m : store) (g : rng) (m1 : store) (g1 : rng) (err : list string) :
  valid_members (rsa_key.members k) = true ->
  valid_members (rsa_public.members pub) = true ->
  valid_members (rsa_private.members priv) = true ->
  disjoint (rsa_public.members pub) (rsa_key.members k) = true ->
  disjoint (rsa_private.members priv) (rsa_key.members k) = true ->
  disjoint (rsa_private.members priv) (rsa_public.members pub) = true ->
  generate_key fuel (Some k) len m g = Some (0, m1, g1, err) ->
  Z.prime (load m1 (rsa_key.p k)) -> Z.prime (load m1 (rsa_key.q k)) ->
  load m1 (rsa_key.p k) <> load m1 (rsa_key.q k) ->
  255 < load m1 (rsa_key.n k) ->
  let m2 := snd (generate_public_key (Some k) pub m1) in
  let m3 := snd (generate_private_key (Some k) priv m2) in
  fst (generate_public_key (Some k) pub m1) = 0
  /\ fst (generate_private_key (Some k) priv m2) = 0
  /\ load m3 (rsa_private.e priv) = 65537
  /\ forall plain fuel', (List.length plain < fuel')%nat ->
       (exists text,
           rsa_encrypt_file fuel' plain
             (load m3 (rsa_public.d pub)) (load m3 (rsa_public.n pub))
           = Returned 0 text
           /\ rsa_decrypt_file fuel' text
                (load m3 (rsa_private.e priv)) (load m3 (rsa_private.n priv))
              = Returned 0 plain)
       /\ (exists text,
             rsa_encrypt_file fuel' plain
               (load m3 (rsa_private.e priv)) (load m3 (rsa_private.n priv))
             = Returned 0 text
             /\ rsa_decrypt_file fuel' text
                  (load m3 (rsa_public.d pub)) (load m3 (rsa_public.n pub))
                = Returned 0 plain).
Proof.
  intros Hkey Hpub Hpriv Hdpub Hdpriv Hdpp Hrun Hp Hq Hne Hbig.
  destruct (generate_key_exponents fuel k len m g m1 g1 err Hkey Hrun Hp Hq)
    as (He & Hinv & _).
  assert (Hn : load m1 (rsa_key.n k)
               = load m1 (rsa_key.p k) * load m1 (rsa_key.q k)).
  { destruct (generate_key_inversion _ _ _ _ _ _ _ _ _ Hrun)
      as (r1 & m0 & Hnpq & [(_ & Hbad & _) | (-> & r2 & err2 & Hed & _)]);
      [discriminate |].
    destruct k as [kn kp kq ke kd kl].
    cbn [rsa_key.n rsa_key.p rsa_key.q rsa_key.e rsa_key.d] in *.
    addr_facts Hkey.
    assert (Hnp : kn <> kp) by assumption.
    assert (Hnq : kn <> kq) by assumption.
    pose proof (generate_n_p_q_post _ _ _ _ _ _ _ _ _ Hnp Hnq Hnpq) as [Hn0 _].
    rewrite !(generate_e_d_frame _ _ _ _ _ _ _ _ _ Hed) by auto.
    exact Hn0. }
  assert (Hd : 0 <= load m1 (rsa_key.d k)).
  { destruct (generate_key_inversion _ _ _ _ _ _ _ _ _ Hrun)
      as (r1 & m0 & Hnpq & [(_ & Hbad & _) | (-> & r2 & err2 & Hed & Hcase)]);
      [discriminate |].
    destruct Hcase as [(_ & Hbad & _) | (-> & _ & _)]; [discriminate |].
    apply (generate_e_d_reduced _ _ _ _ _ _ _ Hed). }
  destruct k as [kn kp kq ke kd kl], pub as [un ud ul], priv as [vn ve vl].
  cbn [rsa_key.n rsa_key.p rsa_key.q rsa_key.e rsa_key.d rsa_key.key_len] in *.
  addr_facts Hkey. addr_facts Hpub. addr_facts Hpriv.
  addr_facts Hdpub. addr_facts Hdpriv. addr_facts Hdpp.
  unfold generate_public_key, generate_private_key, mpz_set.
  cbn [rsa_key.n rsa_key.p rsa_key.q rsa_key.e rsa_key.d rsa_key.key_len
       rsa_public.n rsa_public.d rsa_public.key_len
       rsa_private.n rsa_private.e rsa_private.key_len].
  unfold NULL.
  destruct (Z.eqb_spec kn 0); [contradiction |].
  destruct (Z.eqb_spec kd 0); [contradiction |].
  destruct (Z.eqb_spec ke 0); [contradiction |].
  cbn [orb fst snd]. cbv zeta.
  autorewrite with store.
  rewrite He, Hn.
  assert (Hinv' : (load m1 kd * 65537)
                  mod ((load m1 kp - 1) * (load m1 kq - 1)) = 1)
    by (rewrite Z.mul_comm, <- He; exact Hinv).
  rewrite He in Hinv. rewrite Hn in Hbig.
  assert (H65537 : 0 <= 65537) by discriminate.
  split; [reflexivity |]. split; [reflexivity |]. split; [reflexivity |].
  intros plain fuel' Hfuel. split.
  - exact (file_round_trip _ _ _ _ plain fuel' Hp Hq Hne Hbig Hd H65537
             Hinv' Hfuel).
  - exact (file_round_trip _ _ _ _ plain fuel' Hp Hq Hne Hbig H65537 Hd
             Hinv Hfuel).
Qed.

Lemma generated_key_round_trip_witness :
  let m1 := Script.store_of
              (generate_key 5 (Some Script.key) 16 Script.zeroed
                 [63; 65; 63; 0; 65; 0]) in
  let m2 := snd (generate_public_key (Some Script.key) Script.pub m1) in
  let m3 := snd (generate_private_key (Some Script.key) Script.priv m2) in
  load m3 302 = 65537
  /\ exists text,
       rsa_encrypt_file 4 (Script.text "RSA") (load m3 202) (load m3 201)
       = Returned 0 text
       /\ rsa_decrypt_file 4 text (load m3 302) (load m3 301)
          = Returned 0 (Script.text "RSA").
Proof.
  intros m1 m2 m3.
  assert (Hrun : generate_key 5 (Some Script.key) 16 Script.zeroed
                   [63; 65; 63; 0; 65; 0] = Some (0, m1, [], []))
    by (vm_compute; reflexivity).
  assert (Hp : Z.prime (load m1 (rsa_key.p Script.key)))
    by (apply prime_check_sound; vm_compute; reflexivity).
  assert (Hq : Z.prime (load m1 (rsa_key.q Script.key)))
    by (apply prime_check_sound; vm_compute; reflexivity).
  assert (Hne : load m1 (rsa_key.p Script.key) <> load m1 (rsa_key.q Script.key))
    by (vm_compute; discriminate).
  assert (Hbig : 255 < load m1 (rsa_key.n Script.key))
    by (vm_compute; reflexivity).
  pose proof (generated_key_round_trip (H := Script.helper) 5 Script.key
                Script.pub Script.priv 16 Script.zeroed [63; 65; 63; 0; 65; 0]
                m1 [] [] eq_refl eq_refl eq_refl eq_refl eq_refl eq_refl
                Hrun Hp Hq Hne Hbig) as (_ & _ & He & Hfiles).
  assert (Hfuel : (List.length (Script.text "RSA") < 4)%nat) by (cbn; lia).
  destruct (Hfiles (Script.text "RSA") 4%nat Hfuel) as [Hpub _].
  split; [exact He | exact Hpub].
Defined.

(** ** The cipher *)

(** X14.  Bytes 0 and 1 pass through the cipher unchanged: for every exponent
    above 0 and every modulus above 1, [rsa_docrypt] maps 0 to 0 and 1 to 1,
    so [rsa_encrypt_file] writes the lines [0] and [1] for them under any
    key. *)
Theorem rsa_docrypt_fixed_points (e n : Z) :
  0 < e -> 1 < n ->
  rsa_docrypt 0 e n = 0 /\ rsa_docrypt 1 e n = 1
  /\ rsa_encrypt_file 3 [char 0; char 1] e n
     = Returned 0 (Script.text "0" ++ [newline] ++ Script.text "1" ++ [newline]).
Proof.
  intros He Hn.
  assert (H0 : rsa_docrypt 0 e n = 0).
  { unfold rsa_docrypt. rewrite mpz_powm_spec by lia.
    rewrite Z.pow_0_l by lia. apply Z.mod_0_l. lia. }
  assert (H1 : rsa_docrypt 1 e n = 1).
  { unfold rsa_docrypt. rewrite mpz_powm_spec by lia.
    rewrite Z.pow_1_l by lia. apply Z.mod_1_l. lia. }
  split; [exact H0 |]. split; [exact H1 |].
  unfold rsa_encrypt_file, fopen_r.
  rewrite encrypt_loop_text by (cbn; lia).
  unfold cipher_text. cbn [map].
  change (code (char 0)) with 0. change (code (char 1)) with 1.
  rewrite H0, H1. reflexivity.
Qed.

Lemma rsa_docrypt_fixed_points_witness :
  rsa_docrypt 0 65537 36863 = 0 /\ rsa_docrypt 1 65537 36863 = 1
  /\ rsa_encrypt_file 3 [char 0; char 1] 65537 36863
     = Returned 0 (Script.text "0" ++ [newline] ++ Script.text "1" ++ [newline]).
Proof.
  assert (He : 0 < 65537) by reflexivity.
  assert (Hn : 1 < 36863) by reflexivity.
  exact (rsa_docrypt_fixed_points 65537 36863 He Hn).
Defined.

Lemma rsa_docrypt_mod (p q e d x : Z) :
  Z.prime p -> Z.prime q -> p <> q -> 0 <= e -> 0 <= d ->
  (e * d) mod ((p - 1) * (q - 1)) = 1 ->
  rsa_docrypt (rsa_docrypt x e (p * q)) d (p * q) = x mod (p * q).
Proof.
  intros Hp Hq Hne He Hd Hinv.
  pose proof (Z.prime_ge_2 p Hp). pose proof (Z.prime_ge_2 q Hq).
  unfold rsa_docrypt. rewrite !mpz_powm_spec by nia.
  rewrite Z.mod_pow_l, <- Z.pow_mul_r by lia.
  apply rsa_exponents_cancel; assumption.
Qed.

(** X15.  What comes back when the modulus is small.  For two distinct primes
    and two non-negative exponents inverse to each other modulo
    (p - 1) (q - 1), whatever the size of n = p * q: [rsa_docrypt] with one
    exponent and then the other maps every integer x to x mod n, and a file
    that is encrypted and then decrypted comes back with every byte reduced
    modulo n.  Only for n > 255 is that the original file. *)
Theorem rsa_round_trip_reduces (p q e d : Z) :
  Z.prime p -> Z.prime q -> p <> q -> 0 <= e -> 0 <= d ->
  (e * d) mod ((p - 1) * (q - 1)) = 1 ->
  (forall x, rsa_docrypt (rsa_docrypt x e (p * q)) d (p * q) = x mod (p * q))
  /\ forall plain fuel, (List.length plain < fuel)%nat ->
       exists text,
         rsa_encrypt_file fuel plain e (p * q) = Returned 0 text
         /\ rsa_decrypt_file fuel text d (p * q)
            = Returned 0 (map (fun c => char (code c mod (p * q))) plain).
Proof.
  intros Hp Hq Hne He Hd Hinv.
  pose proof (Z.prime_ge_2 p Hp). pose proof (Z.prime_ge_2 q Hq).
  split; [intros x; apply rsa_docrypt_mod; assumption |].
  intros plain fuel Hfuel.
  exists (cipher_text plain e (p * q)). split.
  - unfold rsa_encrypt_file, fopen_r. rewrite encrypt_loop_text by exact Hfuel.
    reflexivity.
  - unfold rsa_decrypt_file, fopen_r, cipher_text.
    change (token_lines (map (fun c => rsa_docrypt (code c) e (p * q)) plain))
      with ([] ++ token_lines (map (fun c => rsa_docrypt (code c) e (p * q)) plain)).
    rewrite (decrypt_loop_lines d (p * q) _ [] 0 [] fuel).
    + cbn [app]. f_equal. rewrite map_map. apply map_ext. intros c.
      unfold decrypted_byte. rewrite rsa_docrypt_mod by assumption.
      pose proof (code_range c) as Hc.
      assert (Hm : 0 <= code c mod (p * q) <= code c).
      { split; [apply Z.mod_pos_bound; nia | apply Z.mod_le; nia]. }
      unfold to_uint8, mpz_get_ui.
      rewrite Z.abs_eq by lia.
      rewrite (Z.mod_small _ (2 ^ 64))
        by (split; [lia | apply Z.le_lt_trans with 255; [lia | reflexivity]]).
      rewrite (Z.mod_small _ (2 ^ 8))
        by (split; [lia | apply Z.le_lt_trans with 255; [lia | reflexivity]]).
      reflexivity.
    + reflexivity.
    + rewrite length_map. exact Hfuel.
    + apply Forall_map, Forall_forall. intros c _.
      apply mpz_powm_range; nia.
Qed.

Lemma rsa_round_trip_reduces_witness :
  rsa_docrypt (rsa_docrypt 65 3 (3 * 5)) 3 (3 * 5) = 65 mod (3 * 5)
  /\ exists text,
       rsa_encrypt_file 3 (Script.text "AB") 3 (3 * 5) = Returned 0 text
       /\ rsa_decrypt_file 3 text 3 (3 * 5)
          = Returned 0 (map (fun c => char (code c mod (3 * 5))) (Script.text "AB")).
Proof.
  assert (H5 : Z.prime 5) by (apply prime_check_sound; vm_compute; reflexivity).
  assert (Hne : 3 <> 5) by discriminate.
  assert (He : 0 <= 3) by discriminate.
  assert (Hinv : (3 * 3) mod ((3 - 1) * (5 - 1)) = 1) by reflexivity.
  pose proof (rsa_round_trip_reduces 3 5 3 3 Z.prime_3 H5 Hne He He Hinv)
    as [Hx Hfile].
  assert (Hfuel : (List.length (Script.text "AB") < 3)%nat) by (cbn; lia).
  split; [exact (Hx 65) | exact (Hfile (Script.text "AB") 3%nat Hfuel)].
Defined.

(** ** The encrypted file *)

Lemma cipher_text_app (plain1 plain2 : list ascii) (e n : Z) :
  cipher_text (plain1 ++ plain2) e n
  = cipher_text plain1 e n ++ cipher_text plain2 e n.
Proof.
  unfold cipher_text, token_lines. rewrite map_app, flat_map_app. reflexivity.
Qed.

(** X16.  [rsa_encrypt_file] encrypts byte by byte, with no state carried from
    one byte to the next: for a non-negative exponent and a modulus other
    than 0 it returns 0 on every file, and the file written for a
    concatenation is the concatenation of the files written for the parts. *)
Theorem rsa_encrypt_file_concatenates (e n : Z) (plain1 plain2 : list ascii)
  (fuel1 fuel2 fuel : nat) :
  0 <= e -> n <> 0 ->
  (List.length plain1 < fuel1)%nat -> (List.length plain2 < fuel2)%nat ->
  (List.length plain1 + List.length plain2 < fuel)%nat ->
  exists text1 text2,
    rsa_encrypt_file fuel1 plain1 e n = Returned 0 text1
    /\ rsa_encrypt_file fuel2 plain2 e n = Returned 0 text2
    /\ rsa_encrypt_file fuel (plain1 ++ plain2) e n = Returned 0 (text1 ++ text2).
Proof.
  intros _ _ H1 H2 H12.
  exists (cipher_text plain1 e n), (cipher_text plain2 e n).
  unfold rsa_encrypt_file, fopen_r.
  rewrite !encrypt_loop_text by (rewrite ?length_app; lia).
  rewrite cipher_text_app. auto.
Qed.

Lemma rsa_encrypt_file_concatenates_witness :
  exists text1 text2,
    rsa_encrypt_file 3 (Script.text "RS") 65537 36863 = Returned 0 text1
    /\ rsa_encrypt_file 2 (Script.text "A") 65537 36863 = Returned 0 text2
    /\ rsa_encrypt_file 4 (Script.text "RS" ++ Script.text "A") 65537 36863
       = Returned 0 (text1 ++ text2).
Proof.
  assert (He : 0 <= 65537) by discriminate.
  assert (Hn : 36863 <> 0) by discriminate.
  assert (H1 : (List.length (Script.text "RS") < 3)%nat) by (cbn; lia).
  assert (H2 : (List.length (Script.text "A") < 2)%nat) by (cbn; lia).
  assert (H12 : (List.length (Script.text "RS") + List.length (Script.text "A")
                 < 4)%nat) by (cbn; lia).
  exact (rsa_encrypt_file_concatenates 65537 36863 (Script.text "RS")
           (Script.text "A") 3 2 4 He Hn H1 H2 H12).
Defined.

Lemma hex_digit_cipher_char (v : Z) :
  0 <= v < 16 ->
  cipher_char (hex_digit v) = true /\ Ascii.eqb (hex_digit v) newline = false.
Proof.
  intros Hv.
  assert (Hcases : v = 0 \/ v = 1 \/ v = 2 \/ v = 3 \/ v = 4 \/ v = 5 \/ v = 6
                   \/ v = 7 \/ v = 8 \/ v = 9 \/ v = 10 \/ v = 11 \/ v = 12
                   \/ v = 13 \/ v = 14 \/ v = 15) by lia.
  repeat (destruct Hcases as [-> | Hcases]; [vm_compute; auto |]).
  subst v. vm_compute. auto.
Qed.

Lemma hex_digits_chars (fuel : nat) : forall v acc,
  0 <= v ->
  Forall (fun c => cipher_char c = true /\ Ascii.eqb c newline = false) acc ->
  Forall (fun c => cipher_char c = true /\ Ascii.eqb c newline = false)
    (hex_digits fuel v acc).
Proof.
  induction fuel as [| fuel IH]; intros v acc Hv Hacc; [exact Hacc |].
  cbn [hex_digits].
  assert (Hd : 0 <= v mod 16 < 16) by (apply Z.mod_pos_bound; lia).
  assert (Hhead : Forall (fun c => cipher_char c = true
                                   /\ Ascii.eqb c newline = false)
                    (hex_digit (v mod 16) :: acc))
    by (constructor; [apply hex_digit_cipher_char; exact Hd | exact Hacc]).
  destruct (v / 16 =? 0); [exact Hhead |].
  apply IH; [apply Z.div_pos; lia | exact Hhead].
Qed.

Lemma token_lines_chars (vs : list Z) :
  Forall (fun v => 0 <= v) vs ->
  forallb cipher_char (token_lines vs) = true
  /\ count_occ ascii_dec (token_lines vs) newline = List.length vs.
Proof.
  induction 1 as [| v vs Hv Hvs [IHc IHn]]; [split; reflexivity |].
  assert (Hline : forallb cipher_char (format_Zx v) = true
                  /\ count_occ ascii_dec (format_Zx v) newline = O).
  { unfold format_Zx.
    destruct (Z.ltb_spec v 0) as [| _]; [lia |]. cbn [app].
    rewrite Z.abs_eq by exact Hv.
    pose proof (hex_digits_chars (S (Z.to_nat (Z.log2 v))) v [] Hv
                  (Forall_nil _)) as Hall.
    induction Hall as [| c l [Hc Hnl] _ [IH1 IH2]]; [split; reflexivity |].
    cbn [forallb]. rewrite Hc, IH1. split; [reflexivity |].
    rewrite count_occ_cons_neq; [exact IH2 |].
    intros ->. rewrite Ascii.eqb_refl in Hnl. discriminate. }
  destruct Hline as [Hlc Hln].
  unfold token_lines in *. cbn [flat_map].
  rewrite !forallb_app, !count_occ_app, Hlc, IHc, Hln, IHn.
  split; reflexivity.
Qed.

(** X17.  The shape of an encrypted file.  For a non-negative exponent and a
    modulus other than 0, the file [rsa_encrypt_file] writes consists of the
    digits 0-9 and a-f and the line terminator only (no sign, no prefix, no
    upper case, no padding), and it holds exactly one line per byte of the
    file read. *)
Theorem rsa_encrypt_file_alphabet (e n : Z) (plain : list ascii) (fuel : nat) :
  0 <= e -> n <> 0 -> (List.length plain < fuel)%nat ->
  exists text,
    rsa_encrypt_file fuel plain e n = Returned 0 text
    /\ forallb cipher_char text = true
    /\ count_occ ascii_dec text newline = List.length plain.
Proof.
  intros He Hn Hfuel. exists (cipher_text plain e n).
  unfold rsa_encrypt_file, fopen_r.
  rewrite encrypt_loop_text by exact Hfuel. split; [reflexivity |].
  unfold cipher_text.
  rewrite <- (length_map (fun c => rsa_docrypt (code c) e n) plain).
  apply token_lines_chars.
  apply Forall_map, Forall_forall. intros c _.
  apply mpz_powm_range; assumption.
Qed.

Lemma rsa_encrypt_file_alphabet_witness :
  exists text,
    rsa_encrypt_file 4 (Script.text "RSA") 65537 36863 = Returned 0 text
    /\ forallb cipher_char text = true
    /\ count_occ ascii_dec text newline = List.length (Script.text "RSA").
Proof.
  assert (He : 0 <= 65537) by discriminate.
  assert (Hn : 36863 <> 0) by discriminate.
  assert (Hfuel : (List.length (Script.text "RSA") < 4)%nat) by (cbn; lia).
  exact (rsa_encrypt_file_alphabet 65537 36863 (Script.text "RSA") 4 He Hn Hfuel).
Defined.

(** X18.  [rsa_decrypt_file] takes any file of well-formed lines, whoever
    wrote it: for N lines that each hold a non-negative number in
    hexadecimal it returns 0 and writes exactly N bytes, the k-th being the
    low eight bits of the k-th number raised to the exponent modulo n.  No
    number is checked against the modulus or against 255. *)
Theorem rsa_decrypt_file_lines (e n : Z) (vs : list Z) (fuel : nat) :
  0 <= e -> n <> 0 ->
  Forall (fun v => 0 <= v) vs -> (List.length vs < fuel)%nat ->
  exists bytes,
    rsa_decrypt_file fuel (token_lines vs) e n = Returned 0 bytes
    /\ List.length bytes = List.length vs
    /\ forall k v, nth_error vs k = Some v ->
         nth_error bytes k = Some (char ((v ^ e mod Z.abs n) mod 2 ^ 8)).
Proof.
  intros He Hn Hvs Hfuel. exists (map (decrypted_byte e n) vs).
  split; [| split].
  - unfold rsa_decrypt_file, fopen_r.
    change (token_lines vs) with ([] ++ token_lines vs).
    rewrite decrypt_loop_lines by trivial. reflexivity.
  - apply length_map.
  - intros k v Hk. rewrite nth_error_map, Hk. cbn [option_map].
    unfold decrypted_byte, rsa_docrypt, mpz_get_ui, to_uint8.
    pose proof (mpz_powm_range v e n He Hn) as Hr.
    rewrite Z.abs_eq by lia.
    unfold mpz_powm in *. destruct (Z.leb_spec 0 e) as [_ |]; [| lia].
    rewrite Zpow_mod_correct in * by lia.
    rewrite Z.mod_mod_divide by (exists (2 ^ 56); reflexivity).
    reflexivity.
Qed.

Lemma rsa_decrypt_file_lines_witness :
  exists bytes,
    rsa_decrypt_file 3 (token_lines [70000; 5]) 3 (-1000) = Returned 0 bytes
    /\ List.length bytes = 2%nat
    /\ nth_error bytes 1 = Some (char ((5 ^ 3 mod Z.abs (-1000)) mod 2 ^ 8)).
Proof.
  assert (He : 0 <= 3) by discriminate.
  assert (Hn : -1000 <> 0) by discriminate.
  assert (Hvs : Forall (fun v => 0 <= v) [70000; 5])
    by (repeat constructor; discriminate).
  assert (Hfuel : (List.length [70000; 5]%Z < 3)%nat) by (cbn; lia).
  destruct (rsa_decrypt_file_lines 3 (-1000) [70000; 5] 3 He Hn Hvs Hfuel)
    as (bytes & Hrun & Hlen & Hnth).
  exists bytes. split; [exact Hrun |]. split; [exact Hlen |].
  exact (Hnth 1%nat 5 eq_refl).
Defined.

Lemma gmp_fscanf_Zx_last (ws : list ascii) (v dst : Z) :
  forallb isspace ws = true -> 0 <= v ->
  gmp_fscanf_Zx (mkFILE (ws ++ format_Zx v) false) dst = (1, v, mkFILE [] true).
Proof.
  intros Hws Hv. unfold gmp_fscanf_Zx. cbn [buf eof].
  rewrite skip_space_app by exact Hws.
  destruct (format_Zx_nonneg v Hv) as [(dg & tl & Hdg & Htext) Hscan].
  specialize (Hscan []). rewrite app_nil_r in Hscan.
  rewrite Htext in *. cbn [skip_space] in *.
  destruct (hex_digit_facts dg Hdg) as (Hval & Hsp & Hminus & Hplus).
  rewrite Hsp, Hminus, Hplus. cbn [orb].
  rewrite Hval.
  rewrite Hscan. reflexivity.
Qed.

Lemma decrypt_loop_unterminated (e n v : Z) : forall vs ws dencry out fuel,
  forallb isspace ws = true -> 0 <= v ->
  (List.length vs < fuel)%nat ->
  Forall (fun v => 0 <= v) vs ->
  decrypt_loop fuel (mkFILE (ws ++ token_lines vs ++ format_Zx v) false)
    dencry out e n
  = Returned 0 (out ++ map (decrypted_byte e n) vs).
Proof.
  induction vs as [| w vs IH]; intros ws dencry out fuel Hws Hv Hfuel Hpos;
    (destruct fuel as [| fuel]; [cbn [List.length] in Hfuel; lia |]).
  - cbn [decrypt_loop feof eof token_lines flat_map app].
    rewrite gmp_fscanf_Zx_last by assumption. cbn [feof eof map].
    rewrite app_nil_r. reflexivity.
  - cbn [decrypt_loop feof eof token_lines flat_map].
    rewrite <- !app_assoc. cbn [app].
    inversion Hpos as [| w' vs' Hw Hvs]; subst.
    rewrite gmp_fscanf_Zx_line by trivial.
    cbn [feof eof].
    change (newline :: flat_map (fun v0 => format_Zx v0 ++ [newline]) vs
              ++ format_Zx v)
      with ([newline] ++ token_lines vs ++ format_Zx v).
    rewrite IH.
    + unfold fputc, decrypted_byte. cbn [map]. rewrite <- app_assoc. reflexivity.
    + reflexivity.
    + exact Hv.
    + cbn [List.length] in Hfuel. lia.
    + exact Hvs.
Qed.

(** X19.  A last line that lacks its line terminator is lost: when the
    encrypted file ends right after the digits of a number,
    [rsa_decrypt_file] reads that number, finds the end-of-file indicator set
    and leaves the loop before writing its byte.  It returns 0 with the bytes
    of the lines before it only. *)
Theorem rsa_decrypt_file_drops_unterminated (e n v : Z) (vs : list Z)
  (fuel : nat) :
  0 <= e -> n <> 0 ->
  Forall (fun v => 0 <= v) vs -> 0 <= v -> (List.length vs < fuel)%nat ->
  rsa_decrypt_file fuel (token_lines vs ++ format_Zx v) e n
  = rsa_decrypt_file fuel (token_lines vs) e n
  /\ rsa_decrypt_file fuel (token_lines vs ++ format_Zx v) e n
     = Returned 0 (map (decrypted_byte e n) vs).
Proof.
  intros _ _ Hvs Hv Hfuel.
  unfold rsa_decrypt_file, fopen_r.
  change (token_lines vs ++ format_Zx v)
    with ([] ++ token_lines vs ++ format_Zx v).
  change (mkFILE (token_lines vs) false)
    with (mkFILE ([] ++ token_lines vs) false).
  rewrite decrypt_loop_unterminated, decrypt_loop_lines by trivial.
  split; reflexivity.
Qed.

Lemma rsa_decrypt_file_drops_unterminated_witness :
  rsa_decrypt_file 2 (token_lines [65] ++ format_Zx 66) 1 36863
  = rsa_decrypt_file 2 (token_lines [65]) 1 36863
  /\ rsa_decrypt_file 2 (token_lines [65] ++ format_Zx 66) 1 36863
     = Returned 0 (map (decrypted_byte 1 36863) [65]).
Proof.
  assert (He : 0 <= 1) by discriminate.
  assert (Hn : 36863 <> 0) by discriminate.
  assert (Hvs : Forall (fun v => 0 <= v) [65])
    by (repeat constructor; discriminate).
  assert (Hv : 0 <= 66) by discriminate.
  assert (Hfuel : (List.length [65]%Z < 2)%nat) by (cbn; lia).
  exact (rsa_decrypt_file_drops_unterminated 1 36863 66 [65] 2 He Hn Hvs Hv Hfuel).
Defined.

(** X20.  White space in front of the encrypted text is not seen: the first
    [gmp_fscanf] skips it, so [rsa_decrypt_file] behaves on the file as on
    the file without it, for every amount of fuel; a file of white space
    only, like an empty file, gives 0 and an empty output. *)
Theorem rsa_decrypt_file_leading_space (e n : Z) (ws s : list ascii)
  (fuel : nat) :
  forallb isspace ws = true ->
  rsa_decrypt_file fuel (ws ++ s) e n = rsa_decrypt_file fuel s e n
  /\ (fuel <> O -> rsa_decrypt_file fuel ws e n = Returned 0 []).
Proof.
  intros Hws. unfold rsa_decrypt_file, fopen_r.
  destruct fuel as [| fuel]; [split; [reflexivity | congruence] |].
  cbn [decrypt_loop feof eof]. unfold gmp_fscanf_Zx. cbn [buf eof].
  rewrite skip_space_app by exact Hws.
  split; [reflexivity |]. intros _.
  rewrite <- (app_nil_r ws), skip_space_app by exact Hws.
  reflexivity.
Qed.

Lemma rsa_decrypt_file_leading_space_witness :
  rsa_decrypt_file 3 ([newline; char 32] ++ token_lines [65]) 1 36863
  = rsa_decrypt_file 3 (token_lines [65]) 1 36863
  /\ (3%nat <> O -> rsa_decrypt_file 3 [newline; char 32] 1 36863 = Returned 0 []).
Proof.
  assert (Hws : forallb isspace [newline; char 32] = true) by reflexivity.
  exact (rsa_decrypt_file_leading_space 1 36863 [newline; char 32]
           (token_lines [65]) 3 Hws).
Defined.
